(** * Verification model of the dialogue-runner package

    Shallow embedding of
    - [src/src/dialogue-tree-runtime.ts]   (module [TreeRuntime]),
    - [src/src/command-dispatcher.ts]      (module [Commands]),
    - [src/unnamed/part_004] (line-provider.ts, module [Lines]),
    - [src/unnamed/part_000] (runner.ts, module [Runner]).

    Conventions.
    - A JavaScript [Map<string, V>] is an association list kept in insertion
      order ([JsMap]); [set] on an existing key updates it in place, as
      [Map.prototype.set] does, so [keys] follows insertion order.
    - A [Set<string>] is a duplicate-free list ([JsSet]).
    - [string | null] and optional properties are [option string]; the
      JavaScript truthiness test on a string ([!s], [a || b]) treats both
      [None] and [Some ""] as falsy ([truthy_str]), while [??] only replaces
      [None].
    - A JavaScript number read from text is represented by the decimal
      literal that [parseFloat] consumed ([VNum lit]); the double it denotes
      is the one nearest to that literal.  No claim depends on the rounding.
    - A method that can throw returns an [outcome]: the result with the new
      state, or the thrown message with the state at the throw point. *)

From Stdlib Require Import String Ascii List Bool ZArith Lia.
From Stdlib Require Import Numbers.DecimalString.
Import ListNotations.
Open Scope string_scope.

(** ** Shared data *)

Inductive VariableValue : Type :=
| VStr (s : string)
| VNum (lit : string)
| VBool (b : bool).

Definition JsMap (V : Type) : Type := list (string * V).

Fixpoint map_get {V : Type} (m : JsMap V) (k : string) : option V :=
  match m with
  | [] => None
  | (k', v) :: m' => if String.eqb k k' then Some v else map_get m' k
  end.

Fixpoint map_set {V : Type} (m : JsMap V) (k : string) (v : V) : JsMap V :=
  match m with
  | [] => [(k, v)]
  | (k', v') :: m' =>
      if String.eqb k k' then (k', v) :: m' else (k', v') :: map_set m' k v
  end.

Definition map_keys {V : Type} (m : JsMap V) : list string := List.map fst m.

Definition map_has {V : Type} (m : JsMap V) (k : string) : bool :=
  match map_get m k with Some _ => true | None => false end.

(** [Map.prototype.delete]: removes the entry of [k] (a [Map] holds at most
    one). *)
Fixpoint map_delete {V : Type} (m : JsMap V) (k : string) : JsMap V :=
  match m with
  | [] => []
  | (k', v) :: m' => if String.eqb k k' then m' else (k', v) :: map_delete m' k
  end.

Definition JsSet : Type := list string.

Definition set_has (s : JsSet) (x : string) : bool :=
  existsb (String.eqb x) s.

Definition set_add (s : JsSet) (x : string) : JsSet :=
  if set_has s x then s else app s [x].

(** [s || d] for a [string | undefined] [s]. *)
Definition truthy_str (o : option string) : option string :=
  match o with
  | None => None
  | Some "" => None
  | Some s => Some s
  end.

Definition str_or (o : option string) (d : string) : string :=
  match truthy_str o with Some s => s | None => d end.

(** [arr[i]] for an integer index [i]: [undefined] outside [0 .. length-1]. *)
Definition nth_z {A : Type} (l : list A) (i : Z) : option A :=
  if (i <? 0)%Z then None else nth_error l (Z.to_nat i).

Definition Z_to_string (z : Z) : string := NilEmpty.string_of_int (Z.to_int z).

Inductive outcome (S A : Type) : Type :=
| Ok (a : A) (s : S)
| Throw (msg : string) (s : S).
Arguments Ok {S A}.
Arguments Throw {S A}.

Definition outcome_state {S A : Type} (o : outcome S A) : S :=
  match o with Ok _ s => s | Throw _ s => s end.

(** ** types.ts *)

Record OptionInfo : Type := mkOptionInfo {
  oi_id : Z;
  oi_lineId : string;
  oi_enabled : bool;
  oi_destinationNode : option string
}.

Inductive RuntimeEvent : Type :=
| ELine (lineId : string) (substitutions : list string)
| EOptions (options : list OptionInfo)
| ECommand (text : string)
| ENodeStart (nodeName : string)
| ENodeComplete (nodeName : string)
| EDialogueComplete
| EPrepareForLines (lineIds : list string).

(** ** dialogue-tree-runtime.ts *)
Module TreeRuntime.

Record PlayerChoice : Type := mkChoice {
  pc_id : string;
  pc_text : string;
  pc_nextNodeId : option string;
  pc_lineId : option string;
  pc_enabled : option bool
}.

(** [DialogueNode = NpcNode | PlayerNode]; a node loaded from JSON whose
    [type] is neither tag is [OtherNode] (the final branch of
    [populateEventsForCurrentNode]).  [speaker] and [metadata] are never
    read and are left out. *)
Inductive DialogueNode : Type :=
| NpcNode (id : string) (content : string) (lineId : option string)
          (substitutions : option (list string)) (nextNodeId : option string)
| PlayerNode (id : string) (choices : list PlayerChoice)
| OtherNode (id : string).

Definition node_id (n : DialogueNode) : string :=
  match n with NpcNode id _ _ _ _ => id | PlayerNode id _ => id | OtherNode id => id end.

Record DialogueTree : Type := mkTree {
  tree_id : string;
  startNodeId : string;
  nodes : JsMap DialogueNode
}.

Record OptionsCache : Type := mkCache {
  oc_choices : list PlayerChoice;
  oc_nodeId : string
}.

(** The private fields of [DialogueTreeRuntime]. *)
Record RtState : Type := mkRt {
  tree : DialogueTree;
  currentNodeId : option string;
  isComplete : bool;
  waitingForOption : bool;
  pendingEvents : list RuntimeEvent;
  pendingNextNodeId : option string;
  startedNodes : JsSet;
  variables : JsMap VariableValue;
  optionCache : option OptionsCache
}.

(** Field assignments [this.f = x]. *)
Definition set_currentNodeId (rt : RtState) x :=
  mkRt rt.(tree) x rt.(isComplete) rt.(waitingForOption) rt.(pendingEvents)
       rt.(pendingNextNodeId) rt.(startedNodes) rt.(variables) rt.(optionCache).
Definition set_isComplete (rt : RtState) x :=
  mkRt rt.(tree) rt.(currentNodeId) x rt.(waitingForOption) rt.(pendingEvents)
       rt.(pendingNextNodeId) rt.(startedNodes) rt.(variables) rt.(optionCache).
Definition set_waitingForOption (rt : RtState) x :=
  mkRt rt.(tree) rt.(currentNodeId) rt.(isComplete) x rt.(pendingEvents)
       rt.(pendingNextNodeId) rt.(startedNodes) rt.(variables) rt.(optionCache).
Definition set_pendingEvents (rt : RtState) x :=
  mkRt rt.(tree) rt.(currentNodeId) rt.(isComplete) rt.(waitingForOption) x
       rt.(pendingNextNodeId) rt.(startedNodes) rt.(variables) rt.(optionCache).
Definition set_pendingNextNodeId (rt : RtState) x :=
  mkRt rt.(tree) rt.(currentNodeId) rt.(isComplete) rt.(waitingForOption)
       rt.(pendingEvents) x rt.(startedNodes) rt.(variables) rt.(optionCache).
Definition set_startedNodes (rt : RtState) x :=
  mkRt rt.(tree) rt.(currentNodeId) rt.(isComplete) rt.(waitingForOption)
       rt.(pendingEvents) rt.(pendingNextNodeId) x rt.(variables) rt.(optionCache).
Definition set_variables (rt : RtState) x :=
  mkRt rt.(tree) rt.(currentNodeId) rt.(isComplete) rt.(waitingForOption)
       rt.(pendingEvents) rt.(pendingNextNodeId) rt.(startedNodes) x rt.(optionCache).
Definition set_optionCache (rt : RtState) x :=
  mkRt rt.(tree) rt.(currentNodeId) rt.(isComplete) rt.(waitingForOption)
       rt.(pendingEvents) rt.(pendingNextNodeId) rt.(startedNodes) rt.(variables) x.

(** [this.pendingEvents.push(...es)] *)
Definition push (rt : RtState) (es : list RuntimeEvent) : RtState :=
  set_pendingEvents rt (app rt.(pendingEvents) es).

(** [constructor(tree)] *)
Definition create (t : DialogueTree) : RtState :=
  mkRt t (Some t.(startNodeId)) false false [] None [] [] None.

(** [setNode(nodeName)] *)
Definition setNode (rt : RtState) (nodeName : string) : RtState :=
  let rt := set_currentNodeId rt (Some nodeName) in
  let rt := set_waitingForOption rt false in
  let rt := set_pendingEvents rt [] in
  let rt := set_pendingNextNodeId rt None in
  set_optionCache rt None.

(** [choice => ({ id: idx, lineId: choice.lineId || choice.id, ... })] *)
Definition choice_option (idx : nat) (c : PlayerChoice) : OptionInfo :=
  mkOptionInfo (Z.of_nat idx) (str_or c.(pc_lineId) c.(pc_id))
               (match c.(pc_enabled) with Some b => b | None => true end)
               c.(pc_nextNodeId).

Fixpoint mapi_from {A B : Type} (f : nat -> A -> B) (i : nat) (l : list A) : list B :=
  match l with [] => [] | x :: l' => f i x :: mapi_from f (S i) l' end.

(** [private populateEventsForCurrentNode()].  [this.tree.nodes[id]] is
    the lookup of the tree's own node keys: a node id that names a member
    inherited from [Object.prototype] (such as [constructor]) is outside
    this model, as is the [node_start(undefined)] the source emits for it. *)
Definition populateEventsForCurrentNode (rt : RtState) : RtState :=
  if rt.(isComplete) then rt else
  match truthy_str rt.(currentNodeId) with
  | None => push rt [EDialogueComplete]
  | Some cur =>
      match map_get rt.(tree).(nodes) cur with
      | None => set_isComplete (push rt [EDialogueComplete]) true
      | Some node =>
          if negb (set_has rt.(startedNodes) (node_id node)) then
            push (set_startedNodes rt (set_add rt.(startedNodes) (node_id node)))
                 [ENodeStart (node_id node)]
          else
            match node with
            | NpcNode id _ lid subs next =>
                let lineId := str_or lid id in
                let substitutions := match subs with Some l => l | None => [] end in
                let rt := set_pendingNextNodeId rt next in
                push rt [EPrepareForLines [lineId];
                         ELine lineId substitutions;
                         ENodeComplete id]
            | PlayerNode id choices =>
                let options := mapi_from choice_option 0 choices in
                let rt := push rt [EPrepareForLines (List.map oi_lineId options);
                                   EOptions options] in
                set_optionCache rt (Some (mkCache choices id))
            | OtherNode _ => set_isComplete (push rt [EDialogueComplete]) true
            end
      end
  end.

(** [continue(): RuntimeEvent | null] *)
Definition continue (rt : RtState) : option RuntimeEvent * RtState :=
  if rt.(isComplete) || rt.(waitingForOption) then (None, rt) else
  let rt := match rt.(pendingEvents) with
            | [] => populateEventsForCurrentNode rt
            | _ => rt
            end in
  match rt.(pendingEvents) with
  | [] => (None, rt)
  | next :: rest =>
      let rt := set_pendingEvents rt rest in
      let rt := match next with EOptions _ => set_waitingForOption rt true | _ => rt end in
      let rt := match next with
                | ENodeComplete _ =>
                    set_pendingNextNodeId (set_currentNodeId rt rt.(pendingNextNodeId)) None
                | _ => rt
                end in
      let rt := match next with EDialogueComplete => set_isComplete rt true | _ => rt end in
      (Some next, rt)
  end.

(** [setSelectedOption(optionId)] *)
Definition setSelectedOption (rt : RtState) (optionId : Z) : outcome RtState unit :=
  match rt.(optionCache) with
  | None => Throw "Not currently waiting for an option" rt
  | Some cache =>
      if negb rt.(waitingForOption) then Throw "Not currently waiting for an option" rt else
      match nth_z cache.(oc_choices) optionId with
      | None => Throw ("Invalid option id " ++ Z_to_string optionId) rt
      | Some choice =>
          let rt := set_waitingForOption rt false in
          let rt := set_pendingNextNodeId rt choice.(pc_nextNodeId) in
          let rt := push rt [ENodeComplete cache.(oc_nodeId)] in
          Ok tt (set_optionCache rt None)
      end
  end.

Definition getVariable (rt : RtState) (name : string) : option VariableValue :=
  map_get rt.(variables) name.

Definition setVariable (rt : RtState) (name : string) (v : VariableValue) : RtState :=
  set_variables rt (map_set rt.(variables) name v).

Definition getVariableNames (rt : RtState) : list string := map_keys rt.(variables).

Definition isWaitingForOption (rt : RtState) : bool := rt.(waitingForOption).

Definition isDialogueComplete (rt : RtState) : bool := rt.(isComplete).

(** [reset()] *)
Definition reset (rt : RtState) : RtState :=
  let rt := set_currentNodeId rt (Some rt.(tree).(startNodeId)) in
  let rt := set_waitingForOption rt false in
  let rt := set_isComplete rt false in
  let rt := set_pendingEvents rt [] in
  let rt := set_pendingNextNodeId rt None in
  let rt := set_startedNodes rt [] in
  set_optionCache rt None.

(** The operations a caller can issue between two [reset]/[loadProgram]
    calls. *)
Inductive rt_op : Type :=
| RSetNode (nodeName : string)
| RContinue
| RSelect (optionId : Z)
| RSetVariable (name : string) (v : VariableValue).

Definition rt_exec (rt : RtState) (op : rt_op) : RtState :=
  match op with
  | RSetNode n => setNode rt n
  | RContinue => snd (continue rt)
  | RSelect i => outcome_state (setSelectedOption rt i)
  | RSetVariable n v => setVariable rt n v
  end.

Definition rt_exec_all (rt : RtState) (ops : list rt_op) : RtState :=
  fold_left rt_exec ops rt.

(** [collectEvents]-style driver: [n] calls of [continue], results in order. *)
Fixpoint steps (n : nat) (rt : RtState) : list (option RuntimeEvent) :=
  match n with
  | O => []
  | S n' => let (e, rt') := continue rt in e :: steps n' rt'
  end.

(** State after [n] calls of [continue]. *)
Fixpoint advance (n : nat) (rt : RtState) : RtState :=
  match n with
  | O => rt
  | S n' => advance n' (snd (continue rt))
  end.

(** The linear NPC chain A -> B of the specification's scenario. *)
Definition two_node_tree : DialogueTree :=
  mkTree "demo" "A"
    [("A", NpcNode "A" "Welcome" None None (Some "B"));
     ("B", NpcNode "B" "Farewell" None None None)].

(** The choice scenario of the specification: node P offers Buy -> X and
    Chat -> Y. *)
Definition shop_tree : DialogueTree :=
  mkTree "shop" "P"
    [("P", PlayerNode "P" [mkChoice "buy" "Buy" (Some "X") None None;
                           mkChoice "chat" "Chat" (Some "Y") None None]);
     ("X", NpcNode "X" "Here are the wares." None None None);
     ("Y", NpcNode "Y" "Gossip time." None None None)].

End TreeRuntime.

(** [InMemoryVariableStorage] of variable-storage.ts (the second half of
    [src/src/dialogue-tree-runtime.ts]); the store is its private [Map]. *)
Module InMemoryStorage.

Definition Store : Type := JsMap VariableValue.

(** [constructor(initial?)]: [entries] is [Object.entries(initial)]. *)
Definition create (initial : option (list (string * VariableValue))) : Store :=
  match initial with
  | None => []
  | Some entries => fold_left (fun m '(key, value) => map_set m key value) entries []
  end.

Definition get (s : Store) (name : string) : option VariableValue := map_get s name.
Definition set (s : Store) (name : string) (value : VariableValue) : Store := map_set s name value.
Definition has (s : Store) (name : string) : bool := map_has s name.
(** [delete(name)]: the result of [Map.delete] and the new map. *)
Definition delete (s : Store) (name : string) : bool * Store := (map_has s name, map_delete s name).
Definition clear (s : Store) : Store := [].
(** [getAll()] returns [new Map(this.variables)], a copy. *)
Definition getAll (s : Store) : JsMap VariableValue := s.
Definition getAllNames (s : Store) : list string := map_keys s.

(** The mutating calls a caller can make. *)
Inductive store_op : Type :=
| SSet (name : string) (value : VariableValue)
| SDelete (name : string)
| SClear.

Definition store_exec (s : Store) (op : store_op) : Store :=
  match op with
  | SSet n v => set s n v
  | SDelete n => snd (delete s n)
  | SClear => clear s
  end.

Definition store_exec_all (s : Store) (ops : list store_op) : Store := fold_left store_exec ops s.

End InMemoryStorage.

(** ** Character and string helpers (JavaScript string built-ins) *)

Definition ch (n : nat) : ascii := ascii_of_nat n.

(** The double quote character, code 34. *)
Definition dq : ascii := ch 34.

(** [StrWhiteSpaceChar] restricted to characters below 256: TAB, LF, VT, FF,
    CR, SPACE and NO-BREAK SPACE. *)
Definition is_js_space (c : ascii) : bool :=
  existsb (Nat.eqb (nat_of_ascii c)) [9; 10; 11; 12; 13; 32; 160].

Definition is_digit (c : ascii) : bool :=
  let n := nat_of_ascii c in Nat.leb 48 n && Nat.leb n 57.

Fixpoint str_drop (n : nat) (s : string) : string :=
  match n, s with
  | O, _ => s
  | S _, EmptyString => EmptyString
  | S n', String _ s' => str_drop n' s'
  end.

Fixpoint trim_start (s : string) : string :=
  match s with
  | String c s' => if is_js_space c then trim_start s' else s
  | EmptyString => EmptyString
  end.

Fixpoint str_rev (s : string) : string :=
  match s with
  | EmptyString => EmptyString
  | String c s' => str_rev s' ++ String c EmptyString
  end.

(** [String.prototype.trim] *)
Definition trim (s : string) : string := str_rev (trim_start (str_rev (trim_start s))).

Definition str_first (s : string) : option ascii :=
  match s with String c _ => Some c | EmptyString => None end.

Definition str_last (s : string) : option ascii := str_first (str_rev s).

Definition opt_ascii_eqb (o : option ascii) (c : ascii) : bool :=
  match o with Some c' => Ascii.eqb c' c | None => false end.

(** [s.startsWith(c)] and [s.endsWith(c)] for a one-character [c]. *)
Definition starts_with (c : ascii) (s : string) : bool := opt_ascii_eqb (str_first s) c.
Definition ends_with (c : ascii) (s : string) : bool := opt_ascii_eqb (str_last s) c.

(** ** command-dispatcher.ts *)
Module Commands.

(** The calls a handler makes on its [CommandContext], in order.  [CtxDelay]
    is the [setTimeout] the [wait] handler awaits; it does not touch the
    runner's state. *)
Inductive CtxCall : Type :=
| CtxSetVariable (name : string) (v : VariableValue)
| CtxStop
| CtxContinue
| CtxDelay (seconds : string).

(** Handlers of the package only issue context calls, so a handler is the
    list of calls it makes for given arguments. *)
Definition CommandHandler : Type := list string -> list CtxCall.

Record CommandDispatcher : Type := mkDispatcher {
  handlers : JsMap CommandHandler;
  defaultHandler : option CommandHandler
}.

(** [String.prototype.toLowerCase] on the code points 0-255 that a
    character stands for: A-Z and the Latin-1 capitals U+00C0-U+00DE
    (except U+00D7, the multiplication sign) map to the code point 32
    higher; every other code point in this range is its own lowercase. *)
Definition lower_char (c : ascii) : ascii :=
  let n := nat_of_ascii c in
  if (Nat.leb 65 n && Nat.leb n 90) ||
     (Nat.leb 192 n && Nat.leb n 222 && negb (Nat.eqb n 215))
  then ascii_of_nat (n + 32) else c.

Fixpoint toLowerCase (s : string) : string :=
  match s with
  | EmptyString => EmptyString
  | String c s' => String (lower_char c) (toLowerCase s')
  end.

Definition on (d : CommandDispatcher) (command : string) (h : CommandHandler) :=
  mkDispatcher (map_set d.(handlers) (toLowerCase command) h) d.(defaultHandler).

Definition is_quote (c : ascii) : bool := Ascii.eqb c dq || Ascii.eqb c "'".

(** The [for] loop of [tokenize] with its locals [tokens], [current],
    [inQuotes] and [quoteChar] ([None] for ['']). *)
Fixpoint tokenize_loop (s : string) (tokens : list string) (current : string)
         (inQuotes : bool) (quoteChar : option ascii) : list string :=
  match s with
  | EmptyString => if String.eqb current "" then tokens else app tokens [current]
  | String c s' =>
      if is_quote c && negb inQuotes then tokenize_loop s' tokens current true (Some c)
      else if opt_ascii_eqb quoteChar c && inQuotes then
        tokenize_loop s' tokens current false None
      else if Ascii.eqb c " " && negb inQuotes then
        if String.eqb current "" then tokenize_loop s' tokens current inQuotes quoteChar
        else tokenize_loop s' (app tokens [current]) "" inQuotes quoteChar
      else tokenize_loop s' tokens (current ++ String c EmptyString) inQuotes quoteChar
  end.

Definition tokenize (text : string) : list string := tokenize_loop text [] "" false None.

Definition parseCommand (text : string) : option (string * list string) :=
  let trimmed := trim text in
  if String.eqb trimmed "" then None else
  match tokenize trimmed with
  | [] => None
  | command :: args => Some (command, args)
  end.

(** [dispatch]: whether a handler ran, and the context calls it made. *)
Definition dispatch (d : CommandDispatcher) (commandText : string) : bool * list CtxCall :=
  match parseCommand commandText with
  | None => (false, [])
  | Some (command, args) =>
      match map_get d.(handlers) (toLowerCase command) with
      | Some h => (true, h args)
      | None =>
          match d.(defaultHandler) with
          | Some h => (true, h (command :: args))
          | None => (false, [])
          end
      end
  end.

(** *** [parseFloat] (ECMA-262, 19.2.4) *)

Fixpoint digits_len (s : string) : nat :=
  match s with
  | String c s' => if is_digit c then S (digits_len s') else O
  | EmptyString => O
  end.

(** Length of an [ExponentPart] at the head of [s], 0 if there is none. *)
Definition exponent_len (s : string) : nat :=
  match s with
  | String c s' =>
      if Ascii.eqb c "e" || Ascii.eqb c "E" then
        let '(sl, rest) :=
          match s' with
          | String c2 s'' => if Ascii.eqb c2 "+" || Ascii.eqb c2 "-" then (1, s'') else (0, s')
          | EmptyString => (0, s')
          end in
        let d := digits_len rest in
        if Nat.eqb d 0 then 0 else 1 + sl + d
      else 0
  | EmptyString => 0
  end.

(** Length of the longest [StrUnsignedDecimalLiteral] prefix of [s]. *)
Definition unsigned_len (s : string) : nat :=
  if String.prefix "Infinity" s then 8 else
  let d1 := digits_len s in
  match str_drop d1 s with
  | String "." r =>
      let d2 := digits_len r in
      if Nat.eqb d1 0 && Nat.eqb d2 0 then 0
      else d1 + 1 + d2 + exponent_len (str_drop d2 r)
  | rest => if Nat.eqb d1 0 then 0 else d1 + exponent_len rest
  end.

(** [parseFloat(s)]: [None] for [NaN], otherwise the longest
    [StrDecimalLiteral] prefix of the string after leading white space. *)
Definition parseFloat (s : string) : option string :=
  let t := trim_start s in
  let sl := match t with
            | String c _ => if Ascii.eqb c "+" || Ascii.eqb c "-" then 1 else 0
            | EmptyString => 0
            end in
  let n := unsigned_len (str_drop sl t) in
  if Nat.eqb n 0 then None else Some (substring 0 (sl + n) t).

(** [parseValue(valueStr)] *)
Definition parseValue (valueStr : string) : VariableValue :=
  if (starts_with dq valueStr && ends_with dq valueStr) ||
     (starts_with "'" valueStr && ends_with "'" valueStr)
  then VStr (substring 1 (String.length valueStr - 2) valueStr)
  else if String.eqb valueStr "true" then VBool true
  else if String.eqb valueStr "false" then VBool false
  else match parseFloat valueStr with
       | Some num => VNum num
       | None => VStr valueStr
       end.

(** [args[0].replace(/^\$/, '')] *)
Definition strip_dollar (s : string) : string :=
  match s with
  | String "$" s' => s'
  | _ => s
  end.

Definition wait_handler : CommandHandler := fun args =>
  let a0 := match args with a :: _ => str_or (Some a) "1" | [] => "1" end in
  match parseFloat a0 with
  | Some secs => [CtxDelay secs; CtxContinue]
  | None => [CtxContinue]
  end.

Definition stop_handler : CommandHandler := fun _ => [CtxStop].

Definition set_handler : CommandHandler := fun args =>
  match args with
  | a0 :: (_ :: _) as rest =>
      [CtxSetVariable (strip_dollar a0) (parseValue (String.concat " " rest)); CtxContinue]
  | _ => [CtxContinue]
  end.

Definition createDefaultDispatcher : CommandDispatcher :=
  let d := mkDispatcher [] None in
  let d := on d "wait" wait_handler in
  let d := on d "stop" stop_handler in
  on d "set" set_handler.

(** [new CommandDispatcher()] *)
Definition newDispatcher : CommandDispatcher := mkDispatcher [] None.

Definition off (d : CommandDispatcher) (command : string) : CommandDispatcher :=
  mkDispatcher (map_delete d.(handlers) (toLowerCase command)) d.(defaultHandler).

Definition setDefault (d : CommandDispatcher) (h : CommandHandler) : CommandDispatcher :=
  mkDispatcher d.(handlers) (Some h).

Definition hasHandler (d : CommandDispatcher) (command : string) : bool :=
  map_has d.(handlers) (toLowerCase command) ||
  match d.(defaultHandler) with Some _ => true | None => false end.

Definition getRegisteredCommands (d : CommandDispatcher) : list string := map_keys d.(handlers).

(** The configuring calls [on], [off] and [setDefault]. *)
Inductive disp_op : Type :=
| DOn (command : string) (h : CommandHandler)
| DOff (command : string)
| DSetDefault (h : CommandHandler).

Definition disp_exec (d : CommandDispatcher) (op : disp_op) : CommandDispatcher :=
  match op with
  | DOn c h => on d c h
  | DOff c => off d c
  | DSetDefault h => setDefault d h
  end.

Definition disp_build (d : CommandDispatcher) (ops : list disp_op) : CommandDispatcher :=
  fold_left disp_exec ops d.

End Commands.

(** ** line-provider.ts *)
Module Lines.

Record LineEntry : Type := mkEntry {
  le_id : string;
  le_text : string;
  le_metadata : option (JsMap string)
}.

Record LocalizedLine : Type := mkLocalized {
  ll_text : string;
  ll_lineId : string;
  ll_substitutions : list string;
  ll_metadata : option (JsMap string)
}.

(** Position of the first occurrence of [pat] in [s] ([indexOf]). *)
Fixpoint index_of (pat s : string) : option nat :=
  if String.prefix pat s then Some O else
  match s with
  | EmptyString => None
  | String _ s' => option_map S (index_of pat s')
  end.

(** [GetSubstitution] (ECMA-262, 22.1.3.19.1) for a string pattern: no
    captures, so only [$$], [$&], [$`] and [$'] are special. *)
Fixpoint expand_replacement (tmpl preceding matched following : string) : string :=
  match tmpl with
  | EmptyString => EmptyString
  | String a r =>
      if Ascii.eqb a "$" then
        match r with
        | String c rest =>
            if Ascii.eqb c "$" then String "$" (expand_replacement rest preceding matched following)
            else if Ascii.eqb c "&" then matched ++ expand_replacement rest preceding matched following
            else if Ascii.eqb c "`" then preceding ++ expand_replacement rest preceding matched following
            else if Ascii.eqb c "'" then following ++ expand_replacement rest preceding matched following
            else String "$" (expand_replacement r preceding matched following)
        | EmptyString => String "$" EmptyString
        end
      else String a (expand_replacement r preceding matched following)
  end.

(** [s.replace(pat, rep)] with a string [pat] and a string [rep]. *)
Definition js_replace (s pat rep : string) : string :=
  match index_of pat s with
  | None => s
  | Some k =>
      let preceding := substring 0 k s in
      let following := str_drop (k + String.length pat) s in
      preceding ++ expand_replacement rep preceding pat following ++ following
  end.

Definition nat_to_string (n : nat) : string := NilEmpty.string_of_uint (Nat.to_uint n).

(** The template literal [`{${idx}}`]. *)
Definition placeholder (idx : nat) : string := "{" ++ nat_to_string idx ++ "}".

(** [substitutions.forEach((sub, idx) => { result = result.replace(...) })] *)
Fixpoint apply_from (result : string) (idx : nat) (subs : list string) : string :=
  match subs with
  | [] => result
  | sub :: subs' => apply_from (js_replace result (placeholder idx) sub) (S idx) subs'
  end.

Definition applySubstitutions (text : string) (substitutions : list string) : string :=
  apply_from text 0 substitutions.

(** [MapLineProvider.getLine]; [lines] is the provider's [Map]. *)
Definition getLine (lines : JsMap LineEntry) (lineId : string) (substitutions : list string)
  : option LocalizedLine :=
  match map_get lines lineId with
  | None => None
  | Some entry =>
      Some (mkLocalized (applySubstitutions entry.(le_text) substitutions)
                        lineId substitutions entry.(le_metadata))
  end.

(** [MapLineProvider.setLine] *)
Definition setLine (lines : JsMap LineEntry) (lineId text : string)
  (metadata : option (JsMap string)) : JsMap LineEntry :=
  map_set lines lineId (mkEntry lineId text metadata).

(** [MapLineProvider.loadFromCsv] *)
Definition loadFromCsv (lines : JsMap LineEntry) (entries : list (string * string))
  : JsMap LineEntry :=
  fold_left (fun m '(id, text) => map_set m id (mkEntry id text None)) entries lines.

(** [new MapLineProvider(record)] for a [Record<string, string>]; [entries]
    is [Object.entries(record)]. *)
Definition of_record (entries : list (string * string)) : JsMap LineEntry :=
  fold_left (fun m '(id, text) => map_set m id (mkEntry id text None)) entries [].

End Lines.

(** ** runner.ts: [DialogueRunner] driving a [DialogueTreeRuntime] *)
Module Runner.

Import Commands Lines.

Record RunnerOption : Type := mkRunnerOption {
  ro_id : Z;
  ro_lineId : string;
  ro_text : string;
  ro_enabled : bool;
  ro_destinationNode : option string
}.

Inductive RunnerEvent : Type :=
| RLine (lineId text : string) (substitutions : list string) (metadata : option (JsMap string))
| ROptions (options : list RunnerOption)
| RCommand (command : string) (handled : bool)
| RNodeStart (nodeName : string)
| RNodeComplete (nodeName : string)
| RDialogueComplete.

Record RunnerState : Type := mkState {
  currentNode : option string;
  isRunning : bool;
  isWaitingForOption : bool;
  isComplete : bool;
  lastEvent : option RuntimeEvent
}.

Definition initialState : RunnerState := mkState None false false false None.

(** The fields of a [DialogueRunner].  The [variableStorage] is an
    [InMemoryVariableStorage] (the [LocalStorageVariableStorage] reads and
    writes the same kind of [Map] as its cache).  Subscribed handlers are
    represented by the log [emitted] of the events passed to [emit], oldest
    first. *)
Record Runner : Type := mkRunner {
  runtime : TreeRuntime.RtState;
  variableStorage : JsMap VariableValue;
  state : RunnerState;
  stopped : bool;
  emitted : list RunnerEvent
}.

Definition set_runtime (r : Runner) x :=
  mkRunner x r.(variableStorage) r.(state) r.(stopped) r.(emitted).
Definition set_variableStorage (r : Runner) x :=
  mkRunner r.(runtime) x r.(state) r.(stopped) r.(emitted).
Definition set_state (r : Runner) x :=
  mkRunner r.(runtime) r.(variableStorage) x r.(stopped) r.(emitted).
Definition set_stopped (r : Runner) x :=
  mkRunner r.(runtime) r.(variableStorage) r.(state) x r.(emitted).

(** [this.state.f = x] *)
Definition set_currentNode (r : Runner) x :=
  let s := r.(state) in
  set_state r (mkState x s.(isRunning) s.(isWaitingForOption) s.(isComplete) s.(lastEvent)).
Definition set_isRunning (r : Runner) x :=
  let s := r.(state) in
  set_state r (mkState s.(currentNode) x s.(isWaitingForOption) s.(isComplete) s.(lastEvent)).
Definition set_isWaitingForOption (r : Runner) x :=
  let s := r.(state) in
  set_state r (mkState s.(currentNode) s.(isRunning) x s.(isComplete) s.(lastEvent)).
Definition set_isComplete (r : Runner) x :=
  let s := r.(state) in
  set_state r (mkState s.(currentNode) s.(isRunning) s.(isWaitingForOption) x s.(lastEvent)).
Definition set_lastEvent (r : Runner) x :=
  let s := r.(state) in
  set_state r (mkState s.(currentNode) s.(isRunning) s.(isWaitingForOption) s.(isComplete) x).

Definition emit (r : Runner) (e : RunnerEvent) : Runner :=
  mkRunner r.(runtime) r.(variableStorage) r.(state) r.(stopped) (app r.(emitted) [e]).

(** [new DialogueRunner({ runtime, variableStorage })] *)
Definition create (rt : TreeRuntime.RtState) (storage : JsMap VariableValue) : Runner :=
  mkRunner rt storage initialState false [].

(** [getVariable]: [this.variableStorage.get(name) ?? this.runtime.getVariable(name)] *)
Definition getVariable (r : Runner) (name : string) : option VariableValue :=
  match map_get r.(variableStorage) name with
  | Some v => Some v
  | None => TreeRuntime.getVariable r.(runtime) name
  end.

(** The two writes of [setVariable], in program order. *)
Inductive VarWrite : Type :=
| WStorage (name : string) (v : VariableValue)
| WRuntime (name : string) (v : VariableValue).

Definition apply_write (r : Runner) (w : VarWrite) : Runner :=
  match w with
  | WStorage name v => set_variableStorage r (map_set r.(variableStorage) name v)
  | WRuntime name v => set_runtime r (TreeRuntime.setVariable r.(runtime) name v)
  end.

Definition setVariable_writes (name : string) (v : VariableValue) : list VarWrite :=
  [WStorage name v;     (* this.variableStorage.set(name, value) *)
   WRuntime name v].    (* this.runtime.setVariable(name, value) *)

Definition setVariable (r : Runner) (name : string) (v : VariableValue) : Runner :=
  fold_left apply_write (setVariable_writes name v) r.

(** [stop()] *)
Definition stop (r : Runner) : Runner :=
  set_isComplete (set_isRunning (set_stopped r true) false) true.

(** The [CommandContext] built by [handleCommand]. *)
Definition ctx_call (r : Runner) (c : CtxCall) : Runner :=
  match c with
  | CtxSetVariable name v => setVariable r name v
  | CtxStop => stop r
  | CtxContinue => r
  | CtxDelay _ => r
  end.

Definition run_ctx (r : Runner) (cs : list CtxCall) : Runner := fold_left ctx_call cs r.

Definition missing (lineId : string) : string := "[Missing: " ++ lineId ++ "]".

(** [localizedLine?.text || `[Missing: ${lineId}]`] *)
Definition line_text (l : option LocalizedLine) (lineId : string) : string :=
  str_or (option_map ll_text l) (missing lineId).

Section Loop.

(** The line provider's [getLine] and the command dispatcher. *)
Variable lp_getLine : string -> list string -> option LocalizedLine.
Variable dispatcher : CommandDispatcher.

Definition handleLine (r : Runner) (lineId : string) (subs : list string) : bool * Runner :=
  let localizedLine := lp_getLine lineId subs in
  (true, emit r (RLine lineId (line_text localizedLine lineId) subs
                       (match localizedLine with Some l => l.(ll_metadata) | None => None end))).

Definition handleOptions (r : Runner) (options : list OptionInfo) : bool * Runner :=
  let r := set_isWaitingForOption r true in
  let opts := List.map (fun opt =>
                 mkRunnerOption opt.(oi_id) opt.(oi_lineId)
                   (line_text (lp_getLine opt.(oi_lineId) []) opt.(oi_lineId))
                   opt.(oi_enabled) opt.(oi_destinationNode)) options in
  (true, emit r (ROptions opts)).

Definition handleCommand (r : Runner) (text : string) : bool * Runner :=
  let '(handled, calls) := dispatch dispatcher text in
  let r := run_ctx r calls in
  (false, emit r (RCommand text handled)).

(** [handleRuntimeEvent]: [true] means pause.  [prepareLines] has no effect
    on the runner. *)
Definition handleRuntimeEvent (r : Runner) (e : RuntimeEvent) : bool * Runner :=
  match e with
  | ELine lineId subs => handleLine r lineId subs
  | EOptions options => handleOptions r options
  | ECommand text => handleCommand r text
  | ENodeStart n => (false, set_currentNode (emit r (RNodeStart n)) (Some n))
  | ENodeComplete n => (false, emit r (RNodeComplete n))
  | EDialogueComplete => (true, r)
  | EPrepareForLines _ => (false, r)
  end.

(** The [while] loop of [runUntilPause], unrolled at most [fuel] times. *)
Fixpoint loop (fuel : nat) (r : Runner) : Runner :=
  match fuel with
  | O => r
  | S fuel' =>
      if r.(stopped) || TreeRuntime.isDialogueComplete r.(runtime) then r else
      let (event, rt') := TreeRuntime.continue r.(runtime) in
      let r := set_runtime r rt' in
      match event with
      | None => r
      | Some e =>
          let r := set_lastEvent r (Some e) in
          let (shouldPause, r) := handleRuntimeEvent r e in
          if shouldPause then r else loop fuel' r
      end
  end.

Variable fuel : nat.

Definition runUntilPause (r : Runner) : Runner :=
  let r := loop fuel r in
  if TreeRuntime.isDialogueComplete r.(runtime) then
    emit (set_isRunning (set_isComplete r true) false) RDialogueComplete
  else r.

(** [syncVariablesToRuntime()] *)
Definition syncVariablesToRuntime (r : Runner) : Runner :=
  fold_left (fun r '(name, v) => set_runtime r (TreeRuntime.setVariable r.(runtime) name v))
            r.(variableStorage) r.

(** [start(nodeName)] *)
Definition start (r : Runner) (nodeName : string) : Runner :=
  let r := set_stopped r false in
  let r := set_state r (mkState (Some nodeName) true false false None) in
  let r := syncVariablesToRuntime r in
  let r := set_runtime r (TreeRuntime.setNode r.(runtime) nodeName) in
  runUntilPause r.

(** [continue()] *)
Definition continue (r : Runner) : outcome Runner unit :=
  if r.(state).(isWaitingForOption) then
    Throw "Cannot continue while waiting for option selection" r
  else if r.(state).(isComplete) then Throw "Dialogue is already complete" r
  else Ok tt (runUntilPause r).

(** [selectOption(optionId)] *)
Definition selectOption (r : Runner) (optionId : Z) : outcome Runner unit :=
  if negb r.(state).(isWaitingForOption) then Throw "Not waiting for option selection" r else
  match TreeRuntime.setSelectedOption r.(runtime) optionId with
  | Throw msg rt' => Throw msg (set_runtime r rt')
  | Ok _ rt' =>
      let r := set_runtime r rt' in
      let r := set_isWaitingForOption r false in
      Ok tt (runUntilPause r)
  end.

(** [reset()] *)
Definition reset (r : Runner) : Runner :=
  let r := set_stopped r false in
  let r := set_runtime r (TreeRuntime.reset r.(runtime)) in
  set_state r initialState.

(** The public operations that drive a run. *)
Inductive runner_op : Type :=
| OStart (nodeName : string)
| OContinue
| OSelect (optionId : Z)
| OStop
| OReset.

(** A call that throws leaves the runner in the state at the throw point
    and the caller goes on with the next call. *)
Definition exec (r : Runner) (op : runner_op) : Runner :=
  match op with
  | OStart n => start r n
  | OContinue => outcome_state (continue r)
  | OSelect i => outcome_state (selectOption r i)
  | OStop => stop r
  | OReset => reset r
  end.

Definition exec_all (r : Runner) (ops : list runner_op) : Runner := fold_left exec ops r.

End Loop.

End Runner.

(** * Properties of the reference runtime *)
Module TreeRuntimeFacts.
Import TreeRuntime.

Lemma continue_when_stuck rt :
  isComplete rt || waitingForOption rt = true -> continue rt = (None, rt).
Proof. intros H. unfold continue. rewrite H. reflexivity. Qed.

Lemma continue_complete_sets_flag rt rt1 :
  continue rt = (Some EDialogueComplete, rt1) -> isComplete rt1 = true.
Proof.
  unfold continue. destruct (isComplete rt || waitingForOption rt); [congruence|].
  cbv zeta.
  destruct (pendingEvents (match pendingEvents rt with
                           | [] => populateEventsForCurrentNode rt
                           | _ :: _ => rt end)) as [|e rest]; [congruence|].
  intros H; inversion H; subst; reflexivity.
Qed.

Lemma exec_keeps_complete rt op :
  isComplete rt = true -> isComplete (rt_exec rt op) = true.
Proof.
  intros H. destruct op as [n| |i|n v]; simpl.
  - exact H.
  - rewrite continue_when_stuck by (rewrite H; reflexivity). exact H.
  - unfold setSelectedOption.
    destruct (optionCache rt) as [c|]; [|exact H].
    destruct (negb (waitingForOption rt)); [exact H|].
    destruct (nth_z (oc_choices c) i); exact H.
  - exact H.
Qed.

Lemma exec_all_keeps_complete ops :
  forall rt, isComplete rt = true -> isComplete (rt_exec_all rt ops) = true.
Proof.
  induction ops as [|op ops IH]; intros rt H; simpl; [exact H|].
  apply IH, exec_keeps_complete, H.
Qed.

Lemma steps_after_complete k :
  forall rt, isComplete rt = true -> steps k rt = repeat None k.
Proof.
  induction k as [|k IH]; intros rt H; simpl; [reflexivity|].
  rewrite continue_when_stuck by (rewrite H; reflexivity).
  f_equal. apply IH, H.
Qed.

Lemma steps_add n :
  forall k rt, steps (n + k) rt = app (steps n rt) (steps k (advance n rt)).
Proof.
  induction n as [|n IH]; intros k rt; simpl; [reflexivity|].
  destruct (continue rt) as [e rt'] eqn:E. simpl. rewrite IH. reflexivity.
Qed.

End TreeRuntimeFacts.

Module RuntimeClaims.
Import TreeRuntime TreeRuntimeFacts.

(** C2 (code_bug): [reset()] restores the start position, empties the
    pending events, the option cache and the visited-node set, clears both
    flags, but keeps the variable working set: a variable written before
    [reset()] is still returned by [getVariable] and listed by
    [getVariableNames] afterwards. *)
Theorem reset_keeps_variables :
  forall rt name v,
    let rt' := reset rt in
    currentNodeId rt' = Some (startNodeId (tree rt)) /\
    pendingEvents rt' = [] /\ optionCache rt' = None /\ startedNodes rt' = [] /\
    waitingForOption rt' = false /\ isComplete rt' = false /\
    variables rt' = variables rt /\
    getVariable (reset (setVariable rt name v)) name = Some v /\
    In name (getVariableNames (reset (setVariable rt name v))).
Proof.
  intros rt name v rt'. subst rt'.
  repeat split; try reflexivity.
  - unfold getVariable, setVariable, reset. simpl.
    generalize (variables rt). induction j as [|[k x] m IH]; simpl.
    + rewrite String.eqb_refl. reflexivity.
    + destruct (String.eqb name k) eqn:E; simpl; rewrite E; [reflexivity|exact IH].
  - unfold getVariableNames, map_keys, setVariable, reset. simpl.
    generalize (variables rt). induction j as [|[k x] m IH]; simpl.
    + left. reflexivity.
    + destruct (String.eqb name k) eqn:E; simpl.
      * left. symmetry. apply String.eqb_eq, E.
      * right. exact IH.
Qed.

(** C3: once a call of [continue()] has returned [dialogue_complete], every
    later [continue()] returns [null], whatever [setNode],
    [setSelectedOption], [continue] and [setVariable] calls come in between
    (anything but [reset] and [loadProgram]). *)
Theorem no_event_after_dialogue_complete :
  forall rt rt1 ops,
    continue rt = (Some EDialogueComplete, rt1) ->
    fst (continue (rt_exec_all rt1 ops)) = None.
Proof.
  intros rt rt1 ops H.
  apply continue_complete_sets_flag in H.
  rewrite continue_when_stuck; [reflexivity|].
  rewrite (exec_all_keeps_complete ops rt1 H). reflexivity.
Qed.

Lemma no_event_after_dialogue_complete_witness :
  continue (advance 8 (create two_node_tree))
    = (Some EDialogueComplete, advance 9 (create two_node_tree)) /\
  fst (continue (rt_exec_all (advance 9 (create two_node_tree))
                   [RSetNode "A"; RContinue; RSelect 0])) = None.
Proof.
  split; [vm_compute; reflexivity|].
  apply (no_event_after_dialogue_complete (advance 8 (create two_node_tree))).
  vm_compute. reflexivity.
Defined.

(** C5: stepping the runtime from the start node A of the two-node chain
    yields node_start(A), prepare_for_lines([A]), line(A), node_complete(A),
    node_start(B), prepare_for_lines([B]), line(B), node_complete(B),
    dialogue_complete, and then [null] for ever. *)
Theorem two_node_chain_events :
  forall k,
    steps (9 + k) (create two_node_tree) =
    app [Some (ENodeStart "A"); Some (EPrepareForLines ["A"]); Some (ELine "A" []);
         Some (ENodeComplete "A");
         Some (ENodeStart "B"); Some (EPrepareForLines ["B"]); Some (ELine "B" []);
         Some (ENodeComplete "B");
         Some EDialogueComplete]
        (repeat None k).
Proof.
  intros k. rewrite steps_add.
  rewrite (steps_after_complete k); [|vm_compute; reflexivity].
  f_equal.
Qed.

(** C6: [setSelectedOption(i)] throws exactly when no option set is pending
    (no cached option set, or not waiting for an option) or [i] indexes no
    choice of the cached set; a throw leaves the state as it was; a success
    clears the waiting flag, records the choice's [nextNodeId] as the next
    position and queues [node_complete] for the choice node. *)
Theorem setSelectedOption_contract :
  forall rt i,
    (forall msg rt', setSelectedOption rt i = Throw msg rt' -> rt' = rt) /\
    ((exists msg rt', setSelectedOption rt i = Throw msg rt') <->
       (optionCache rt = None \/ waitingForOption rt = false \/
        exists c, optionCache rt = Some c /\ nth_z (oc_choices c) i = None)) /\
    (forall u rt', setSelectedOption rt i = Ok u rt' ->
       exists c choice,
         optionCache rt = Some c /\ nth_z (oc_choices c) i = Some choice /\
         waitingForOption rt' = false /\
         pendingNextNodeId rt' = pc_nextNodeId choice /\
         pendingEvents rt' = app (pendingEvents rt) [ENodeComplete (oc_nodeId c)] /\
         currentNodeId rt' = currentNodeId rt /\
         optionCache rt' = None).
Proof.
  intros rt i. unfold setSelectedOption.
  destruct (optionCache rt) as [c|] eqn:Ec.
  - destruct (waitingForOption rt) eqn:Ew; simpl.
    + destruct (nth_z (oc_choices c) i) as [choice|] eqn:En.
      * split; [intros msg rt' H; discriminate H|]. split.
        -- split; [intros (msg & rt' & H); discriminate H|].
           intros [H|[H|(c' & H1 & H2)]]; try discriminate H.
           injection H1 as <-. congruence.
        -- intros u rt' H. injection H as _ <-.
           exists c, choice. repeat split; try reflexivity; assumption.
      * split; [intros msg rt' H; injection H as _ <-; reflexivity|]. split.
        -- split; [intros _; right; right; exists c; split; reflexivity + assumption|].
           intros _. eexists; eexists; reflexivity.
        -- intros u rt' H; discriminate H.
    + split; [intros msg rt' H; injection H as _ <-; reflexivity|]. split.
      * split; [intros _; right; left; reflexivity|].
        intros _. eexists; eexists; reflexivity.
      * intros u rt' H; discriminate H.
  - split; [intros msg rt' H; injection H as _ <-; reflexivity|]. split.
    + split; [intros _; left; reflexivity|]. intros _. eexists; eexists; reflexivity.
    + intros u rt' H; discriminate H.
Qed.

End RuntimeClaims.

(** * Properties of the runner *)
Module RunnerFacts.
Import Commands Lines Runner.

(** The four flags the claims talk about: [isRunning], [isWaitingForOption],
    [isComplete] (of [state]) and [stopped]. *)
Definition flags (r : Runner) : bool * bool * bool * bool :=
  (isRunning (state r), isWaitingForOption (state r), isComplete (state r), stopped r).

Definition stopped_flags (w : bool) : bool * bool * bool * bool := (false, w, true, true).

Lemma map_get_set_same {V : Type} (m : JsMap V) k v : map_get (map_set m k v) k = Some v.
Proof.
  induction m as [|[k' x] m IH]; simpl.
  - rewrite String.eqb_refl. reflexivity.
  - destruct (String.eqb k k') eqn:E; simpl; rewrite E; [reflexivity|exact IH].
Qed.

Lemma ctx_call_flags r c :
  flags (ctx_call r c) = flags r \/
  flags (ctx_call r c) = stopped_flags (isWaitingForOption (state r)).
Proof. destruct c; simpl; [left|right|left|left]; reflexivity. Qed.

Lemma ctx_call_waiting r c :
  isWaitingForOption (state (ctx_call r c)) = isWaitingForOption (state r).
Proof. destruct c; reflexivity. Qed.

Lemma run_ctx_flags cs :
  forall r, flags (run_ctx r cs) = flags r \/
            flags (run_ctx r cs) = stopped_flags (isWaitingForOption (state r)).
Proof.
  unfold run_ctx.
  induction cs as [|c cs IH]; intros r; simpl; [left; reflexivity|].
  rewrite <- (ctx_call_waiting r c).
  destruct (IH (ctx_call r c)) as [H|H]; rewrite H; [|right; reflexivity].
  destruct (ctx_call_flags r c) as [H'|H']; rewrite H'; [left|right]; try reflexivity.
  unfold stopped_flags, flags in *. injection H' as _ -> _ _. reflexivity.
Qed.

Lemma continue_options_not_complete rt o rt' :
  TreeRuntime.continue rt = (Some (EOptions o), rt') -> TreeRuntime.isComplete rt' = false.
Proof.
  unfold TreeRuntime.continue.
  destruct (TreeRuntime.isComplete rt) eqn:Ec; simpl; [congruence|].
  destruct (TreeRuntime.waitingForOption rt); simpl; [congruence|].
  destruct (TreeRuntime.pendingEvents rt) as [|e0 rest0] eqn:Ep.
  - unfold TreeRuntime.populateEventsForCurrentNode. rewrite Ec.
    destruct (truthy_str (TreeRuntime.currentNodeId rt)) as [cur|]; [|simpl; rewrite Ep; simpl; congruence].
    destruct (map_get (TreeRuntime.nodes (TreeRuntime.tree rt)) cur) as [node|];
      [|simpl; rewrite Ep; simpl; congruence].
    destruct (negb (set_has (TreeRuntime.startedNodes rt) (TreeRuntime.node_id node)));
      [simpl; rewrite Ep; simpl; congruence|].
    destruct node; simpl; rewrite Ep; simpl; intros H; inversion H; subst; simpl; try exact Ec.
  - rewrite Ep. intros H. inversion H; subst. simpl. exact Ec.
Qed.

Section Loop.
Variable lp : string -> list string -> option LocalizedLine.
Variable d : CommandDispatcher.

Lemma handle_flags r e :
  let '(pause, r') := handleRuntimeEvent lp d r e in
  match e with
  | EOptions _ =>
      pause = true /\ runtime r' = runtime r /\
      flags r' = (isRunning (state r), true, isComplete (state r), stopped r)
  | _ => flags r' = flags r \/ flags r' = stopped_flags (isWaitingForOption (state r))
  end.
Proof.
  destruct e; simpl; try (left; reflexivity).
  - split; [reflexivity|split; reflexivity].
  - unfold handleCommand. destruct (dispatch d text) as [handled calls].
    destruct (run_ctx_flags calls r) as [H|H]; [left|right]; exact H.
Qed.

Lemma loop_stopped fuel r : stopped r = true -> loop lp d fuel r = r.
Proof. intros H. destruct fuel; simpl; [reflexivity|]. rewrite H. reflexivity. Qed.

Lemma flags_waiting r r' :
  flags r' = flags r -> isWaitingForOption (state r') = isWaitingForOption (state r).
Proof. unfold flags. intros H. congruence. Qed.

Lemma flags_stopped r w : flags r = stopped_flags w -> stopped r = true.
Proof. unfold flags, stopped_flags. intros H. congruence. Qed.

Lemma flags_waiting_set r r' :
  flags r' = flags r ->
  (isRunning (state r'), true, isComplete (state r'), stopped r') =
  (isRunning (state r), true, isComplete (state r), stopped r).
Proof. unfold flags. intros H. congruence. Qed.

(** A non-pausing event: continue with the loop from the handled state. *)
Local Ltac no_pause_case :=
  match goal with
  | IH : forall r, _ -> _, Hh : flags ?r3 = _ \/ _, Hf : flags _ = flags ?r,
    Hw' : isWaitingForOption _ = false |- _ =>
    let H := fresh "H" in
    destruct Hh as [H|H];
    [ let H' := fresh "H'" in let H'' := fresh "H''" in
      destruct (IH r3 (eq_trans (flags_waiting _ _ H) Hw')) as [H'|[H'|[H' H'']]];
      [ left; rewrite H', H; exact Hf
      | right; left; exact H'
      | right; right; split; [|exact H''];
        rewrite H'; exact (flags_waiting_set _ _ (eq_trans H Hf)) ]
    | rewrite (loop_stopped _ _ (flags_stopped _ _ H));
      right; left; rewrite H; unfold stopped_flags; rewrite Hw'; reflexivity ]
  end.

(** What one run of the step loop can do to the flags, entered while not
    waiting for an option. *)
Lemma loop_flags fuel :
  forall r, isWaitingForOption (state r) = false ->
    let r' := loop lp d fuel r in
    flags r' = flags r \/ flags r' = stopped_flags false \/
    (flags r' = (isRunning (state r), true, isComplete (state r), stopped r) /\
     TreeRuntime.isComplete (runtime r') = false).
Proof.
  induction fuel as [|fuel IH]; intros r Hw; simpl; [left; reflexivity|].
  destruct (stopped r || TreeRuntime.isDialogueComplete (runtime r)); [left; reflexivity|].
  destruct (TreeRuntime.continue (runtime r)) as [[e|] rt'] eqn:Ec; [|left; reflexivity].
  pose proof (handle_flags (set_lastEvent (set_runtime r rt') (Some e)) e) as Hh.
  destruct (handleRuntimeEvent lp d (set_lastEvent (set_runtime r rt') (Some e)) e)
    as [pause r3] eqn:E3.
  assert (Hf : flags (set_lastEvent (set_runtime r rt') (Some e)) = flags r) by reflexivity.
  assert (Hw' : isWaitingForOption (state (set_lastEvent (set_runtime r rt') (Some e))) = false)
    by exact Hw.
  destruct e as [l s|o|t|n|n| |ls].
  - (* line *)
    simpl in E3. injection E3 as <- <-. left. reflexivity.
  - (* options *)
    destruct Hh as (-> & Hrt & Hf3). right; right. split.
    + rewrite Hf3. reflexivity.
    + rewrite Hrt. simpl. exact (continue_options_not_complete _ _ _ Ec).
  - (* command *)
    simpl in E3. unfold handleCommand in E3.
    destruct (dispatch d t) as [handled calls]. injection E3 as <- _.
    no_pause_case.
  - (* node_start *)
    simpl in E3. injection E3 as <- _. no_pause_case.
  - (* node_complete *)
    simpl in E3. injection E3 as <- _. no_pause_case.
  - (* dialogue_complete *)
    simpl in E3. injection E3 as <- <-. left. reflexivity.
  - (* prepare_for_lines *)
    simpl in E3. injection E3 as <- _. no_pause_case.
Qed.


Variable fuel : nat.

Lemma finish_flags r :
  flags (emit (set_isRunning (set_isComplete r true) false) RDialogueComplete) =
  (false, isWaitingForOption (state r), true, stopped r).
Proof. reflexivity. Qed.

Lemma runUntilPause_flags r :
  isWaitingForOption (state r) = false ->
  let r' := runUntilPause lp d fuel r in
  flags r' = flags r \/ flags r' = (false, false, true, stopped r) \/
  flags r' = stopped_flags false \/
  flags r' = (isRunning (state r), true, isComplete (state r), stopped r).
Proof.
  intros Hw. unfold runUntilPause.
  destruct (loop_flags fuel r Hw) as [H|[H|[H Hc]]].
  - destruct (TreeRuntime.isDialogueComplete (runtime (loop lp d fuel r))); [|left; exact H].
    right; left. rewrite finish_flags. unfold flags in H. rewrite <- Hw. congruence.
  - destruct (TreeRuntime.isDialogueComplete (runtime (loop lp d fuel r)));
      [|right; right; left; exact H].
    right; right; left. rewrite finish_flags. unfold flags, stopped_flags in *. congruence.
  - unfold TreeRuntime.isDialogueComplete. rewrite Hc. right; right; right. exact H.
Qed.

Definition inv_a (f : bool * bool * bool * bool) : Prop :=
  let '(running, _, complete, _) := f in complete = true -> running = false.
Definition inv_c (f : bool * bool * bool * bool) : Prop :=
  let '(running, waiting, complete, _) := f in
  running = negb complete /\ (waiting = true -> complete = false).

Lemma sync_flags r : flags (syncVariablesToRuntime r) = flags r.
Proof.
  unfold syncVariablesToRuntime. generalize (variableStorage r) as l.
  intros l. revert r. induction l as [|[k v] l IH]; intros r; simpl; [reflexivity|].
  rewrite IH. reflexivity.
Qed.

Lemma start_flags r n :
  let r' := start lp d fuel r n in
  flags r' = (true, false, false, false) \/ flags r' = (false, false, true, false) \/
  flags r' = stopped_flags false \/ flags r' = (true, true, false, false).
Proof.
  unfold start.
  match goal with |- context [runUntilPause lp d fuel ?x] => set (r0 := x) end.
  assert (H0 : flags r0 = (true, false, false, false))
    by (transitivity (flags (syncVariablesToRuntime
           (set_state (set_stopped r false) (mkState (Some n) true false false None))));
        [reflexivity|rewrite sync_flags; reflexivity]).
  destruct (runUntilPause_flags r0 (f_equal (fun f => snd (fst (fst f))) H0))
    as [H|[H|[H|H]]]; rewrite H.
  - left. exact H0.
  - right; left. unfold flags in H0. congruence.
  - right; right; left. reflexivity.
  - right; right; right. unfold flags in H0. congruence.
Qed.

Lemma flags_select_ok r rt' :
  flags (set_isWaitingForOption (set_runtime r rt') false) =
  (isRunning (state r), false, isComplete (state r), stopped r).
Proof. reflexivity. Qed.

(** The cases of one public operation. *)
Local Ltac op_cases r op :=
  destruct op as [n| |i| | ]; cbn [exec];
  [ destruct (start_flags r n) as [H|[H|[H|H]]]; rewrite H
  | unfold continue;
    destruct (isWaitingForOption (state r)) eqn:Ew; cbn [outcome_state];
    [|destruct (isComplete (state r)) eqn:Ec; cbn [outcome_state];
      [|destruct (runUntilPause_flags r Ew) as [H|[H|[H|H]]]; rewrite H]]
  | unfold selectOption;
    destruct (isWaitingForOption (state r)) eqn:Ew; cbn [negb outcome_state];
    [ destruct (TreeRuntime.setSelectedOption (runtime r) i) as [u rt'|msg rt'];
      cbn [outcome_state];
      [ destruct (runUntilPause_flags (set_isWaitingForOption (set_runtime r rt') false)
                    eq_refl) as [H|[H|[H|H]]]; rewrite H; try rewrite flags_select_ok
      | ]
    | ]
  | idtac
  | idtac ].

Lemma exec_inv_a r op : inv_a (flags r) -> inv_a (flags (exec lp d fuel r op)).
Proof.
  intros Ha.
  op_cases r op; unfold inv_a, flags, stopped_flags in *; simpl in *; auto; try discriminate.
Qed.

Lemma start_inv_c r n : inv_c (flags (start lp d fuel r n)).
Proof.
  destruct (start_flags r n) as [H|[H|[H|H]]]; rewrite H; unfold inv_c, stopped_flags; simpl;
    split; try reflexivity; discriminate.
Qed.

(** [isWaitingForOption] and [isComplete] are both set only while the
    runner is stopped. *)
Definition inv_b2 (f : bool * bool * bool * bool) : Prop :=
  let '(_, waiting, complete, stopped) := f in
  waiting = true -> complete = true -> stopped = true.
(** While the runner is not stopped, [inv_c] holds. *)
Definition inv_c2 (f : bool * bool * bool * bool) : Prop :=
  let '(running, waiting, complete, stopped) := f in
  stopped = false -> running = negb complete /\ (waiting = true -> complete = false).

Lemma inv_c_c2 f : inv_c f -> inv_c2 f.
Proof. destruct f as [[[a b] c] s]. unfold inv_c, inv_c2. intros H _. exact H. Qed.

Lemma exec_inv_b2 r op : inv_b2 (flags r) -> inv_b2 (flags (exec lp d fuel r op)).
Proof.
  intros Hb.
  op_cases r op; unfold inv_b2, flags, stopped_flags in *; simpl in *; auto; try discriminate;
    try congruence.
Qed.

Lemma exec_inv_c2 r op : op <> OReset -> inv_c2 (flags r) -> inv_c2 (flags (exec lp d fuel r op)).
Proof.
  intros Hop Hc.
  op_cases r op; unfold inv_c2, flags, stopped_flags in *; simpl in *; intros Hs;
    try discriminate; try (split; [reflexivity|discriminate]).
  all: try (exfalso; apply Hop; reflexivity).
  all: try (apply Hc; exact Hs).
  all: try (split; [|intros; first [reflexivity|discriminate|auto]]).
  all: try (destruct (Hc Hs) as [Hr Hw]; rewrite Hr; try rewrite Ec; first [reflexivity|auto]).
  all: try reflexivity.
  all: destruct (Hc Hs) as [Hr Hw]; auto.
Qed.

End Loop.
End RunnerFacts.

Module RunnerClaims.
Import Commands Lines Runner RunnerFacts.

Lemma exec_all_inv_a lp d fuel ops :
  forall r, inv_a (flags r) -> inv_a (flags (exec_all lp d fuel r ops)).
Proof.
  induction ops as [|op ops IH]; intros r H; simpl; [exact H|].
  apply IH, exec_inv_a, H.
Qed.

(** Whether [start] has been called since creation, or since the last
    [reset] of [ops]: [s] is the answer before [ops]. *)
Definition started_after (s : bool) (ops : list runner_op) : bool :=
  fold_left (fun s op => match op with OStart _ => true | OReset => false | _ => s end) ops s.

Lemma exec_all_inv_b2 lp d fuel ops :
  forall r, inv_b2 (flags r) -> inv_b2 (flags (exec_all lp d fuel r ops)).
Proof.
  induction ops as [|op ops IH]; intros r H; simpl; [exact H|].
  apply IH, exec_inv_b2, H.
Qed.

Lemma exec_all_inv_c2 lp d fuel ops :
  forall r s, (s = true -> inv_c2 (flags r)) ->
    started_after s ops = true -> inv_c2 (flags (exec_all lp d fuel r ops)).
Proof.
  induction ops as [|op ops IH]; intros r s H Hs; simpl in Hs |- *; [exact (H Hs)|].
  refine (IH _ _ _ Hs). clear Hs. intros Hs. destruct op as [n| |i| |].
  - apply inv_c_c2, start_inv_c.
  - apply exec_inv_c2; [discriminate|exact (H Hs)].
  - apply exec_inv_c2; [discriminate|exact (H Hs)].
  - apply exec_inv_c2; [discriminate|exact (H Hs)].
  - discriminate.
Qed.

(** C1 (corrected): over any sequence of [start], [continue], [selectOption],
    [stop] and [reset] calls on a runner driving the tree runtime (a call
    that throws leaves the runner as it was), every reachable state
    satisfies: [isComplete] implies not [isRunning]; and
    [isWaitingForOption] and [isComplete] are both true only while the
    runner is stopped (its [stopped] flag, set by [stop()] or a stop
    command, cleared only by [start()] and [reset()]).  In every reachable
    state where [start()] has been called since creation or the last
    [reset()] and the runner is not stopped, [isWaitingForOption] also
    implies [isRunning] and not [isComplete]. *)
Theorem runner_flag_invariants :
  forall lp d fuel t storage ops,
    let r := exec_all lp d fuel (create (TreeRuntime.create t) storage) ops in
    (isComplete (state r) = true -> isRunning (state r) = false) /\
    (isWaitingForOption (state r) = true -> isComplete (state r) = true -> stopped r = true) /\
    (started_after false ops = true -> stopped r = false ->
       isWaitingForOption (state r) = true ->
       isRunning (state r) = true /\ isComplete (state r) = false).
Proof.
  intros lp d fuel t storage ops r. subst r. split; [|split].
  - pose proof (exec_all_inv_a lp d fuel ops (create (TreeRuntime.create t) storage)) as H.
    unfold inv_a, flags in H. simpl in H. exact (H (fun _ => eq_refl)).
  - pose proof (exec_all_inv_b2 lp d fuel ops (create (TreeRuntime.create t) storage)) as H.
    unfold inv_b2, flags in H. simpl in H. exact (H (fun H _ => H)).
  - intros Hst Hs Hw.
    pose proof (exec_all_inv_c2 lp d fuel ops (create (TreeRuntime.create t) storage) false
                  (fun H => match Bool.diff_false_true H with end) Hst) as H.
    unfold inv_c2, flags in H. destruct (H Hs) as [Hr Hb].
    rewrite (Hb Hw) in Hr |- *. split; [exact Hr|reflexivity].
Qed.

Lemma runner_flag_invariants_witness :
  let r := exec_all (getLine []) createDefaultDispatcher 16
             (create (TreeRuntime.create TreeRuntime.shop_tree) []) [OStart "P"; OStop; OStart "P"] in
  isWaitingForOption (state r) = true /\
  isRunning (state r) = true /\ isComplete (state r) = false.
Proof.
  intros r.
  assert (Hw : isWaitingForOption (state r) = true) by (vm_compute; reflexivity).
  split; [exact Hw|].
  exact (proj2 (proj2 (runner_flag_invariants (getLine []) createDefaultDispatcher 16
                         TreeRuntime.shop_tree [] [OStart "P"; OStop; OStart "P"]))
           eq_refl ltac:(vm_compute; reflexivity) Hw).
Defined.

(** C1 counterexample: [start("P")] on the choice node followed by [stop()]
    leaves [isWaitingForOption] and [isComplete] both true; [continue()]
    called before any [start] sets [isWaitingForOption] while [isRunning] is
    false. *)
Lemma runner_flag_invariants_counterexample :
  let r1 := exec_all (getLine []) createDefaultDispatcher 16
              (create (TreeRuntime.create TreeRuntime.shop_tree) []) [OStart "P"; OStop] in
  let r2 := exec_all (getLine []) createDefaultDispatcher 16
              (create (TreeRuntime.create TreeRuntime.shop_tree) []) [OContinue] in
  (isWaitingForOption (state r1) = true /\ isComplete (state r1) = true /\
   isRunning (state r1) = false) /\
  (isWaitingForOption (state r2) = true /\ isRunning (state r2) = false).
Proof. vm_compute. repeat split. Qed.

(** C4: after the runner's [setVariable(name, v)] (also when a command
    handler calls it through its context) the durable storage and the
    runtime's working set both return [v] for [name]; the storage write comes
    first, and the state right after it already holds [v] in storage while
    the runtime is untouched; no runtime step is taken. *)
Theorem setVariable_write_through :
  forall r name v,
    let r' := setVariable r name v in
    let r1 := apply_write r (WStorage name v) in
    setVariable_writes name v = [WStorage name v; WRuntime name v] /\
    r' = apply_write r1 (WRuntime name v) /\
    map_get (variableStorage r1) name = Some v /\ runtime r1 = runtime r /\
    map_get (variableStorage r') name = Some v /\
    TreeRuntime.getVariable (runtime r') name = Some v /\
    getVariable r' name = Some v /\
    runtime r' = TreeRuntime.setVariable (runtime r) name v /\
    state r' = state r /\ stopped r' = stopped r /\
    ctx_call r (CtxSetVariable name v) = r'.
Proof.
  intros r name v r' r1. subst r' r1.
  repeat split; simpl; try reflexivity; try apply map_get_set_same.
  unfold getVariable. simpl. rewrite map_get_set_same. reflexivity.
Qed.

Lemma sync_runtime r :
  syncVariablesToRuntime r =
  set_runtime r (fold_left (fun rt '(k, v) => TreeRuntime.setVariable rt k v)
                           (variableStorage r) (runtime r)).
Proof.
  unfold syncVariablesToRuntime.
  assert (Hg : forall l r0, variableStorage r0 = variableStorage r ->
            fold_left (fun r1 '(name, v) => set_runtime r1 (TreeRuntime.setVariable (runtime r1) name v)) l r0
            = set_runtime r0 (fold_left (fun rt '(k, v) => TreeRuntime.setVariable rt k v) l (runtime r0))).
  { induction l as [|[k v] l IH]; intros r0 H0; simpl.
    - destruct r0; reflexivity.
    - rewrite IH by exact H0. reflexivity. }
  apply Hg. reflexivity.
Qed.

Lemma fold_setVariable_complete l :
  forall rt, TreeRuntime.isComplete
    (fold_left (fun rt '(k, v) => TreeRuntime.setVariable rt k v) l rt) = TreeRuntime.isComplete rt.
Proof. induction l as [|[k v] l IH]; intros rt; simpl; [reflexivity|]. rewrite IH. reflexivity. Qed.

(** C8: when the runtime already reports dialogue complete, [start(n)]
    syncs the variables and calls [setNode(n)] but never calls the runtime's
    [continue()]; it ends with the state complete and not running and emits
    one [dialogueComplete]. *)
Theorem start_when_runtime_complete :
  forall lp d fuel r n,
    TreeRuntime.isDialogueComplete (runtime r) = true ->
    let r' := start lp d fuel r n in
    runtime r' =
      TreeRuntime.setNode
        (fold_left (fun rt '(k, v) => TreeRuntime.setVariable rt k v)
                   (variableStorage r) (runtime r)) n /\
    state r' = mkState (Some n) false false true None /\
    stopped r' = false /\
    emitted r' = app (emitted r) [RDialogueComplete].
Proof.
  intros lp d fuel r n Hc r'. subst r'. unfold start, runUntilPause. cbv zeta.
  rewrite sync_runtime.
  match goal with |- context [loop lp d fuel ?x] => set (r0 := x) end.
  assert (H0 : TreeRuntime.isDialogueComplete (runtime r0) = true).
  { subst r0. simpl. unfold TreeRuntime.isDialogueComplete in *.
    rewrite fold_setVariable_complete. exact Hc. }
  assert (Hl : loop lp d fuel r0 = r0).
  { destruct fuel; cbn [loop]; [reflexivity|]. rewrite H0, orb_true_r. reflexivity. }
  rewrite Hl, H0. subst r0. simpl. repeat split; reflexivity.
Qed.

Lemma start_when_runtime_complete_witness :
  TreeRuntime.isDialogueComplete
    (runtime (create (TreeRuntime.advance 9 (TreeRuntime.create TreeRuntime.two_node_tree))
                     [("gold", VNum "100")])) = true /\
  state (start (getLine []) createDefaultDispatcher 16
           (create (TreeRuntime.advance 9 (TreeRuntime.create TreeRuntime.two_node_tree))
                   [("gold", VNum "100")]) "A")
    = mkState (Some "A") false false true None.
Proof.
  assert (H : TreeRuntime.isDialogueComplete
    (runtime (create (TreeRuntime.advance 9 (TreeRuntime.create TreeRuntime.two_node_tree))
                     [("gold", VNum "100")])) = true) by (vm_compute; reflexivity).
  split; [exact H|].
  exact (proj1 (proj2 (start_when_runtime_complete (getLine []) createDefaultDispatcher 16 _ "A" H))).
Defined.

(** C10: a line event whose line the provider does not resolve, or resolves
    to the empty string, is emitted with the text ["[Missing: <lineId>]"]
    and the runner pauses. *)
Theorem line_missing_placeholder :
  forall lp d r lineId subs,
    (lp lineId subs = None \/ exists l, lp lineId subs = Some l /\ ll_text l = "") ->
    exists meta,
      handleRuntimeEvent lp d r (ELine lineId subs) =
        (true, emit r (RLine lineId ("[Missing: " ++ lineId ++ "]") subs meta)).
Proof.
  intros lp d r lineId subs H. simpl. unfold handleLine, line_text.
  destruct H as [H|(l & H & Ht)]; rewrite H; simpl.
  - eexists. reflexivity.
  - rewrite Ht. simpl. eexists. reflexivity.
Qed.

Lemma line_missing_placeholder_witness :
  exists meta,
    handleRuntimeEvent (getLine [("L", mkEntry "L" "" None)]) createDefaultDispatcher
      (create (TreeRuntime.create TreeRuntime.two_node_tree) []) (ELine "L" []) =
    (true, emit (create (TreeRuntime.create TreeRuntime.two_node_tree) [])
                (RLine "L" "[Missing: L]" [] meta)).
Proof.
  apply line_missing_placeholder.
  right. exists (mkLocalized "" "L" [] None). split; reflexivity.
Defined.

End RunnerClaims.

Module CommandClaims.
Import Commands.

Lemma substring_drop n t : substring 0 n t ++ str_drop n t = t.
Proof.
  revert n; induction t as [|c t IH]; intros [|n]; simpl; try reflexivity.
  rewrite IH. reflexivity.
Qed.

Lemma parseFloat_prefix v lit :
  parseFloat v = Some lit -> lit <> "" /\ exists tail, trim_start v = lit ++ tail.
Proof.
  unfold parseFloat. set (t := trim_start v). set (sl := match t with
    | String c _ => if Ascii.eqb c "+" || Ascii.eqb c "-" then 1 else 0
    | EmptyString => 0 end).
  destruct (Nat.eqb (unsigned_len (str_drop sl t)) 0) eqn:E; [discriminate|].
  intros H; injection H as <-. split.
  - destruct t as [|c t'].
    + subst sl. simpl in E. discriminate.
    + apply Nat.eqb_neq in E.
      destruct (sl + unsigned_len (str_drop sl (String c t'))) as [|m] eqn:Em; [lia|].
      simpl. discriminate.
  - exists (str_drop (sl + unsigned_len (str_drop sl t)) t).
    symmetry. apply substring_drop.
Qed.

(** C7 (corrected): the [set] handler writes only when it gets at least two
    arguments, and then writes the first argument with one leading [$]
    removed, bound to [parseValue] of the remaining arguments joined by
    spaces, before calling [continue].  [parseValue] gives the inner string
    of a value quoted by the same quote character at both ends; otherwise a
    boolean for exactly [true] or [false]; otherwise a number whenever
    [parseFloat] finds a decimal-literal prefix after leading white space
    (the number is that prefix, so [12abc] gives 12); and otherwise the value
    as a bare string. *)
Theorem set_command_contract :
  (forall args, Nat.ltb (length args) 2 = true -> set_handler args = [CtxContinue]) /\
  (forall a0 a1 rest,
     set_handler (a0 :: a1 :: rest) =
       [CtxSetVariable (strip_dollar a0) (parseValue (String.concat " " (a1 :: rest)));
        CtxContinue]) /\
  (forall s, strip_dollar (String "$" s) = s) /\
  (forall s, opt_ascii_eqb (str_first s) "$" = false -> strip_dollar s = s) /\
  (forall q v, (q = dq \/ q = "'"%char) -> starts_with q v && ends_with q v = true ->
     parseValue v = VStr (substring 1 (String.length v - 2) v)) /\
  parseValue "true" = VBool true /\ parseValue "false" = VBool false /\
  (forall v,
     (starts_with dq v && ends_with dq v) || (starts_with "'" v && ends_with "'" v) = false ->
     v <> "true" -> v <> "false" -> parseFloat v = None -> parseValue v = VStr v) /\
  (forall v lit,
     (starts_with dq v && ends_with dq v) || (starts_with "'" v && ends_with "'" v) = false ->
     v <> "true" -> v <> "false" -> parseFloat v = Some lit ->
     parseValue v = VNum lit /\ lit <> "" /\ exists tail, trim_start v = lit ++ tail) /\
  dispatch createDefaultDispatcher "set $stat_gold 150" =
    (true, [CtxSetVariable "stat_gold" (VNum "150"); CtxContinue]) /\
  dispatch createDefaultDispatcher "set $x 12abc" =
    (true, [CtxSetVariable "x" (VNum "12"); CtxContinue]) /\
  dispatch createDefaultDispatcher ("set $greeting " ++ String dq ("hi there" ++ String dq "")) =
    (true, [CtxSetVariable "greeting" (VStr "hi there"); CtxContinue]).
Proof.
  split.
  { intros [|a [|b args]] H; simpl in H; try discriminate; reflexivity. }
  split; [reflexivity|]. split; [reflexivity|]. split.
  { intros [|c s] H; [reflexivity|]. simpl in H.
    unfold strip_dollar. destruct (ascii_dec c "$") as [->|Hc]; [discriminate|].
    destruct c as [b0 b1 b2 b3 b4 b5 b6 b7].
    destruct b0, b1, b2, b3, b4, b5, b6, b7; try reflexivity; exfalso; apply Hc; reflexivity. }
  split.
  { intros q v Hq H. unfold parseValue.
    destruct Hq as [->| ->]; rewrite H; [reflexivity|]. rewrite orb_true_r. reflexivity. }
  split; [reflexivity|]. split; [reflexivity|]. split.
  { intros v Hq Ht Hf Hn. unfold parseValue. rewrite Hq.
    apply String.eqb_neq in Ht, Hf. rewrite Ht, Hf, Hn. reflexivity. }
  split.
  { intros v lit Hq Ht Hf Hn. split; [|exact (parseFloat_prefix v lit Hn)].
    unfold parseValue. rewrite Hq.
    apply String.eqb_neq in Ht, Hf. rewrite Ht, Hf, Hn. reflexivity. }
  vm_compute. repeat split.
Qed.

Lemma set_command_contract_witness :
  parseValue "12abc" = VNum "12" /\ "12" <> "".
Proof.
  destruct set_command_contract as (_ & _ & _ & _ & _ & _ & _ & _ & H & _).
  destruct (H "12abc" "12" eq_refl ltac:(discriminate) ltac:(discriminate) eq_refl)
    as (Hv & Hl & _).
  split; [exact Hv|exact Hl].
Defined.

(** C7 counterexample: [<<set $x 12abc>>] stores the number 12, not the
    bare string [12abc]: a value with a numeric prefix counts as numeric. *)
Lemma set_numeric_prefix_counterexample :
  dispatch createDefaultDispatcher "set $x 12abc" =
    (true, [CtxSetVariable "x" (VNum "12"); CtxContinue]) /\
  parseValue "12abc" <> VStr "12abc".
Proof. vm_compute. split; [reflexivity|discriminate]. Qed.

End CommandClaims.

Module LineClaims.
Import Lines.

Lemma prefix_app_self pat q : String.prefix pat (pat ++ q) = true.
Proof.
  induction pat as [|a pat IH]; simpl; [destruct q; reflexivity|].
  destruct (ascii_dec a a) as [_|n]; [exact IH|contradiction].
Qed.

Lemma substring_app p x : substring 0 (String.length p) (p ++ x) = p.
Proof. induction p as [|c p IH]; simpl; [destruct x; reflexivity|]. rewrite IH. reflexivity. Qed.

Lemma str_drop_app p x : str_drop (String.length p) (p ++ x) = x.
Proof. induction p as [|c p IH]; simpl; [reflexivity|]. exact IH. Qed.

Lemma index_of_eq pat s :
  index_of pat s =
  if String.prefix pat s then Some O else
  match s with
  | EmptyString => None
  | String _ s' => option_map S (index_of pat s')
  end.
Proof. destruct s; reflexivity. Qed.

Lemma index_of_first p pat q :
  (forall j, j < String.length p -> String.prefix pat (str_drop j (p ++ pat ++ q)) = false) ->
  index_of pat (p ++ pat ++ q) = Some (String.length p).
Proof.
  induction p as [|c p IH]; intros H; rewrite index_of_eq; cbn [append String.length].
  - rewrite prefix_app_self. reflexivity.
  - assert (H0 : String.prefix pat (String c (p ++ pat ++ q)) = false)
      by exact (H 0 ltac:(simpl; lia)).
    rewrite H0. rewrite IH; [reflexivity|].
    intros j Hj. exact (H (S j) ltac:(simpl; lia)).
Qed.

Lemma index_of_none s pat :
  (forall j, j <= String.length s -> String.prefix pat (str_drop j s) = false) ->
  index_of pat s = None.
Proof.
  induction s as [|c s IH]; intros H; rewrite index_of_eq.
  - pose proof (H 0 ltac:(simpl; lia)) as H0. cbn [str_drop] in H0.
    rewrite H0. reflexivity.
  - pose proof (H 0 ltac:(simpl; lia)) as H0. cbn [str_drop] in H0.
    rewrite H0. rewrite IH; [reflexivity|].
    intros j Hj. exact (H (S j) ltac:(simpl; lia)).
Qed.

Lemma expand_no_dollar rep a b c :
  ~ In "$"%char (list_ascii_of_string rep) -> expand_replacement rep a b c = rep.
Proof.
  induction rep as [|x rep IH]; intros H; simpl; [reflexivity|].
  simpl in H. destruct (Ascii.eqb x "$") eqn:E.
  - apply Ascii.eqb_eq in E. subst x. exfalso. apply H. left. reflexivity.
  - rewrite IH; [reflexivity|]. intros Hi. apply H. right. exact Hi.
Qed.

Lemma index_of_none_replace s pat rep :
  (forall j, j <= String.length s -> String.prefix pat (str_drop j s) = false) ->
  js_replace s pat rep = s.
Proof. intros H. unfold js_replace. rewrite index_of_none by exact H. reflexivity. Qed.

(** C9 (corrected): [MapLineProvider.getLine] returns the entry's text after
    [applySubstitutions], which processes the substitutions in index order on
    the current, already partly substituted text: step [idx] replaces only
    the first occurrence of [{idx}] in that text, so later occurrences stay.
    The substitution goes through JS's replacement patterns ([$$], [$&], [$`]
    and [$']); a substitution without [$] is inserted verbatim, and a text
    without [{idx}] is left as it is. *)
Theorem getLine_first_occurrence :
  (forall lines lineId subs,
     getLine lines lineId subs =
       match map_get lines lineId with
       | None => None
       | Some e => Some (mkLocalized (applySubstitutions (le_text e) subs)
                                     lineId subs (le_metadata e))
       end) /\
  (forall text, applySubstitutions text [] = text) /\
  (forall text idx sub subs,
     apply_from text idx (sub :: subs) =
       apply_from (js_replace text (placeholder idx) sub) (S idx) subs) /\
  (forall p pat q rep,
     (forall j, j < String.length p -> String.prefix pat (str_drop j (p ++ pat ++ q)) = false) ->
     js_replace (p ++ pat ++ q) pat rep = p ++ expand_replacement rep p pat q ++ q) /\
  (forall p pat q rep,
     (forall j, j < String.length p -> String.prefix pat (str_drop j (p ++ pat ++ q)) = false) ->
     ~ In "$"%char (list_ascii_of_string rep) ->
     js_replace (p ++ pat ++ q) pat rep = p ++ rep ++ q) /\
  (forall s pat rep,
     (forall j, j <= String.length s -> String.prefix pat (str_drop j s) = false) ->
     js_replace s pat rep = s) /\
  placeholder 0 = "{0}" /\ placeholder 12 = "{12}" /\
  applySubstitutions "{0} met {1}; {0} left" ["Ann"; "Bo"] = "Ann met Bo; {0} left".
Proof.
  assert (Hr : forall p pat q rep,
     (forall j, j < String.length p -> String.prefix pat (str_drop j (p ++ pat ++ q)) = false) ->
     js_replace (p ++ pat ++ q) pat rep = p ++ expand_replacement rep p pat q ++ q).
  { intros p pat q rep H. unfold js_replace. rewrite index_of_first by exact H.
    rewrite substring_app.
    assert (Hd : str_drop (String.length p + String.length pat) (p ++ pat ++ q) = q).
    { induction p as [|c p IH]; simpl; [apply str_drop_app|].
      apply IH. intros j Hj. exact (H (S j) ltac:(simpl; lia)). }
    rewrite Hd. reflexivity. }
  split; [reflexivity|]. split; [reflexivity|]. split; [reflexivity|].
  split; [exact Hr|]. split.
  { intros p pat q rep H Hn. rewrite Hr by exact H. rewrite expand_no_dollar by exact Hn.
    reflexivity. }
  split.
  { intros s pat rep H. unfold js_replace. rewrite index_of_none by exact H. reflexivity. }
  vm_compute. repeat split.
Qed.

Lemma getLine_first_occurrence_witness :
  js_replace ("Hi " ++ "{0}" ++ ", bye {0}") "{0}" "Ann" = "Hi " ++ "Ann" ++ ", bye {0}".
Proof.
  destruct getLine_first_occurrence as (_ & _ & _ & _ & H & _).
  apply H.
  - intros j Hj. destruct j as [|[|[|j]]]; [reflexivity|reflexivity|reflexivity|simpl in Hj; lia].
  - vm_compute. intros [Hc|[Hc|[Hc|[]]]]; discriminate.
Defined.

(** C9 counterexample: a substitution that itself contains a later
    placeholder is substituted again ([{0} {1}] with [{1}] and [x] gives
    [x {1}], the text's own [{1}] staying), and [$$] in a substitution is
    inserted as one [$]. *)
Lemma substitution_rescan_counterexample :
  applySubstitutions "{0} {1}" ["{1}"; "x"] = "x {1}" /\
  applySubstitutions "{0}" ["$$"] = "$".
Proof. vm_compute. split; reflexivity. Qed.

End LineClaims.

(** ** Further properties of the package *)

Module MapFacts.

Lemma map_set_get_same {V : Type} (m : JsMap V) k v : map_get (map_set m k v) k = Some v.
Proof.
  induction m as [|[k' x] m IH]; simpl.
  - rewrite String.eqb_refl. reflexivity.
  - destruct (String.eqb k k') eqn:E; simpl; rewrite E; [reflexivity|exact IH].
Qed.

Lemma map_set_get_other {V : Type} (m : JsMap V) k v k' :
  k' <> k -> map_get (map_set m k v) k' = map_get m k'.
Proof.
  intros Hne. induction m as [|[k0 x] m IH]; simpl.
  - apply String.eqb_neq in Hne. rewrite Hne. reflexivity.
  - destruct (String.eqb k k0) eqn:E; simpl.
    + apply String.eqb_eq in E. subst k0.
      apply String.eqb_neq in Hne. rewrite Hne. reflexivity.
    + destruct (String.eqb k' k0); [reflexivity|exact IH].
Qed.

Lemma map_has_cons {V : Type} (m : JsMap V) k' x k :
  map_has ((k', x) :: m) k = String.eqb k k' || map_has m k.
Proof. unfold map_has. simpl. destruct (String.eqb k k'); reflexivity. Qed.

Lemma map_keys_set {V : Type} (m : JsMap V) k v :
  map_keys (map_set m k v) = if map_has m k then map_keys m else app (map_keys m) [k].
Proof.
  induction m as [|[k' x] m IH]; [reflexivity|].
  rewrite map_has_cons. simpl.
  destruct (String.eqb k k') eqn:E; simpl; [reflexivity|].
  unfold map_keys in IH |- *. simpl. rewrite IH.
  destruct (map_has m k); reflexivity.
Qed.

Lemma map_has_in {V : Type} (m : JsMap V) k : map_has m k = true <-> In k (map_keys m).
Proof.
  induction m as [|[k' x] m IH]; simpl.
  - split; [discriminate|intros []].
  - rewrite map_has_cons. rewrite orb_true_iff, IH, String.eqb_eq.
    split; intros [H|H]; auto.
Qed.

Lemma map_set_nodup {V : Type} (m : JsMap V) k v :
  NoDup (map_keys m) -> NoDup (map_keys (map_set m k v)).
Proof.
  intros H. rewrite map_keys_set. destruct (map_has m k) eqn:E; [exact H|].
  apply NoDup_app; [exact H|constructor; [intros []|constructor]|].
  intros y Hy [<-|[]]. apply map_has_in in Hy. congruence.
Qed.

Lemma map_delete_keys {V : Type} (m : JsMap V) k :
  NoDup (map_keys m) -> map_keys (map_delete m k) = remove string_dec k (map_keys m).
Proof.
  induction m as [|[k' x] m IH]; intros H; [reflexivity|].
  inversion H as [|a b Hn Hd]; subst. simpl.
  destruct (String.eqb k k') eqn:E; simpl.
  - apply String.eqb_eq in E. subst k'.
    destruct (string_dec k k) as [_|n]; [|contradiction].
    symmetry. apply notin_remove. exact Hn.
  - apply String.eqb_neq in E.
    destruct (string_dec k k') as [e|_]; [contradiction|].
    unfold map_keys in IH |- *. simpl. rewrite IH by exact Hd. reflexivity.
Qed.

Lemma map_delete_get_other {V : Type} (m : JsMap V) k k' :
  k' <> k -> map_get (map_delete m k) k' = map_get m k'.
Proof.
  intros Hne. induction m as [|[k0 x] m IH]; [reflexivity|]. simpl.
  destruct (String.eqb k k0) eqn:E; simpl.
  - apply String.eqb_eq in E. subst k0.
    apply String.eqb_neq in Hne. rewrite Hne. reflexivity.
  - destruct (String.eqb k' k0); [reflexivity|exact IH].
Qed.

Lemma map_get_none {V : Type} (m : JsMap V) k : ~ In k (map_keys m) -> map_get m k = None.
Proof.
  intros H. destruct (map_get m k) eqn:E; [|reflexivity].
  exfalso. apply H, map_has_in. unfold map_has. rewrite E. reflexivity.
Qed.

Lemma map_delete_get_same {V : Type} (m : JsMap V) k :
  NoDup (map_keys m) -> map_get (map_delete m k) k = None.
Proof.
  intros H. apply map_get_none. rewrite map_delete_keys by exact H. apply remove_In.
Qed.

Lemma map_delete_nodup {V : Type} (m : JsMap V) k :
  NoDup (map_keys m) -> NoDup (map_keys (map_delete m k)).
Proof.
  induction m as [|[k' x] m IH]; intros H; simpl; [constructor|].
  inversion H as [|a b Hn Hd]; subst.
  destruct (String.eqb k k'); [exact Hd|].
  change (NoDup (k' :: map_keys (map_delete m k))). constructor; [|exact (IH Hd)].
  intros Hi. apply Hn.
  rewrite map_delete_keys in Hi by exact Hd. apply in_remove in Hi. apply Hi.
Qed.

Lemma map_get_app {V : Type} (l l' : JsMap V) k :
  map_get (app l l') k = match map_get l k with Some v => Some v | None => map_get l' k end.
Proof.
  induction l as [|[k' x] l IH]; simpl; [reflexivity|].
  destruct (String.eqb k k'); [reflexivity|exact IH].
Qed.

(** Inserting a list of entries in order: the last entry of a key wins. *)
Lemma fold_set_get {A V : Type} (g : string -> A -> V) entries m k :
  map_get (fold_left (fun m p => let '(id, x) := p in map_set m id (g id x)) entries m) k =
  match map_get (rev entries) k with Some x => Some (g k x) | None => map_get m k end.
Proof.
  revert m. induction entries as [|[id x] entries IH]; intros m; [reflexivity|].
  simpl. rewrite IH, map_get_app. simpl.
  destruct (map_get (rev entries) k); [reflexivity|].
  destruct (String.eqb k id) eqn:E.
  - apply String.eqb_eq in E. subst id. apply map_set_get_same.
  - apply String.eqb_neq in E. apply map_set_get_other. exact E.
Qed.

Lemma fold_set_nodup {A V : Type} (g : string -> A -> V) entries m :
  NoDup (map_keys m) ->
  NoDup (map_keys (fold_left (fun m p => let '(id, x) := p in map_set m id (g id x)) entries m)).
Proof.
  revert m. induction entries as [|[id x] entries IH]; intros m H; [exact H|].
  simpl. apply IH, map_set_nodup, H.
Qed.

End MapFacts.

Module StorageFacts.
Import InMemoryStorage MapFacts.

(** InMemoryVariableStorage.set: afterwards [get(name)] returns the value
    and [has(name)] is true, every other name reads as before, and
    [getAllNames()] keeps first-insertion order, appending [name] only when
    it was not stored yet. *)
Theorem storage_set_get :
  forall s name value other,
    get (set s name value) name = Some value /\ has (set s name value) name = true /\
    (other <> name -> get (set s name value) other = get s other) /\
    getAllNames (set s name value) =
      if has s name then getAllNames s else app (getAllNames s) [name].
Proof.
  intros s name value other. unfold get, set, has, getAllNames.
  split; [apply map_set_get_same|]. split.
  { unfold map_has. rewrite map_set_get_same. reflexivity. }
  split; [apply map_set_get_other|apply map_keys_set].
Qed.

Lemma store_exec_all_nodup init ops : NoDup (getAllNames (store_exec_all (create init) ops)).
Proof.
  unfold store_exec_all.
  assert (H0 : NoDup (getAllNames (create init))).
  { destruct init as [entries|]; [|constructor].
    exact (fold_set_nodup (fun _ v => v) entries [] (NoDup_nil _)). }
  revert H0. generalize (create init). induction ops as [|op ops IH]; intros s H; [exact H|].
  simpl. apply IH. destruct op; simpl; unfold getAllNames, set, delete, clear in *; simpl.
  - apply map_set_nodup, H.
  - apply map_delete_nodup, H.
  - constructor.
Qed.

(** InMemoryVariableStorage never lists a name twice: after the constructor
    and any sequence of [set], [delete] and [clear] calls, [getAllNames()]
    has no duplicates. *)
Theorem storage_names_unique :
  forall init ops, NoDup (getAllNames (store_exec_all (create init) ops)).
Proof. exact store_exec_all_nodup. Qed.

(** InMemoryVariableStorage.delete on any reachable store returns whether
    the name was present; afterwards [get(name)] is undefined and [has(name)]
    false, every other name reads as before, and [getAllNames()] is the old
    list without [name], in the same order. *)
Theorem storage_delete :
  forall init ops name other,
    let s := store_exec_all (create init) ops in
    fst (delete s name) = has s name /\
    get (snd (delete s name)) name = None /\ has (snd (delete s name)) name = false /\
    (other <> name -> get (snd (delete s name)) other = get s other) /\
    getAllNames (snd (delete s name)) = remove string_dec name (getAllNames s).
Proof.
  intros init ops name other s.
  pose proof (store_exec_all_nodup init ops) as H. fold s in H.
  unfold delete, get, has, getAllNames in *; simpl.
  split; [reflexivity|]. split; [apply map_delete_get_same, H|]. split.
  { unfold map_has. rewrite map_delete_get_same by exact H. reflexivity. }
  split; [apply map_delete_get_other|apply map_delete_keys, H].
Qed.

(** InMemoryVariableStorage's constructor: without an initial record the
    store is empty; with one, each name holds the value of its last entry in
    [Object.entries] order.  After [clear()] every name is undefined and
    [getAllNames()] is empty. *)
Theorem storage_create_clear :
  forall entries name s,
    get (create None) name = None /\
    get (create (Some entries)) name = map_get (rev entries) name /\
    get (clear s) name = None /\ getAllNames (clear s) = [].
Proof.
  intros entries name s. split; [reflexivity|]. split; [|split; reflexivity].
  unfold get, create.
  rewrite (fold_set_get (fun _ v => v) entries [] name).
  destruct (map_get (rev entries) name); reflexivity.
Qed.

End StorageFacts.

Module LineFacts.
Import Lines MapFacts.

(** MapLineProvider.setLine then getLine: the line comes back with the new
    text after substitution, its id, the substitutions and the given
    metadata; every other line id resolves as before. *)
Theorem setLine_getLine :
  forall lines lineId text metadata subs other,
    getLine (setLine lines lineId text metadata) lineId subs =
      Some (mkLocalized (applySubstitutions text subs) lineId subs metadata) /\
    (other <> lineId ->
     getLine (setLine lines lineId text metadata) other subs = getLine lines other subs).
Proof.
  intros lines lineId text metadata subs other. unfold getLine, setLine. split.
  - rewrite map_set_get_same. reflexivity.
  - intros H. rewrite map_set_get_other by exact H. reflexivity.
Qed.

(** MapLineProvider.loadFromCsv and the constructor from a plain record:
    a line id listed in the entries resolves to the text of its last entry,
    with no metadata (also when the line had metadata before); an id not
    listed resolves as before (for the constructor: to null). *)
Theorem loadFromCsv_getLine :
  forall lines entries lineId subs,
    getLine (loadFromCsv lines entries) lineId subs =
      match map_get (rev entries) lineId with
      | Some text => Some (mkLocalized (applySubstitutions text subs) lineId subs None)
      | None => getLine lines lineId subs
      end /\
    getLine (of_record entries) lineId subs =
      match map_get (rev entries) lineId with
      | Some text => Some (mkLocalized (applySubstitutions text subs) lineId subs None)
      | None => None
      end.
Proof.
  intros lines entries lineId subs. unfold getLine, loadFromCsv, of_record.
  rewrite (fold_set_get (fun id t => mkEntry id t None) entries lines lineId).
  rewrite (fold_set_get (fun id t => mkEntry id t None) entries [] lineId).
  split; destruct (map_get (rev entries) lineId); reflexivity.
Qed.

End LineFacts.

Module RuntimeFacts2.
Import TreeRuntime MapFacts.

(** DialogueTreeRuntime.setVariable: [getVariable(name)] then returns the
    value, other names read as before, and [getVariableNames()] keeps
    first-insertion order, appending [name] only when it is new. *)
Theorem runtime_setVariable_names :
  forall rt name v other,
    getVariable (setVariable rt name v) name = Some v /\
    (other <> name -> getVariable (setVariable rt name v) other = getVariable rt other) /\
    getVariableNames (setVariable rt name v) =
      if map_has (variables rt) name then getVariableNames rt
      else app (getVariableNames rt) [name].
Proof.
  intros rt name v other. unfold getVariable, setVariable, getVariableNames. simpl.
  split; [apply map_set_get_same|]. split; [apply map_set_get_other|apply map_keys_set].
Qed.

Lemma continue_set_variables rt vs :
  continue (set_variables rt vs) = (fst (continue rt), set_variables (snd (continue rt)) vs).
Proof.
  destruct rt as [t cur c w pe pn sn vars oc].
  unfold continue, populateEventsForCurrentNode, set_variables; cbn.
  destruct (c || w); [reflexivity|].
  destruct pe as [|e0 pe]; cbn.
  - destruct c; cbn; [reflexivity|].
    destruct (truthy_str cur) as [cur'|]; cbn; [|reflexivity].
    destruct (map_get (nodes t) cur') as [node|]; cbn; [|reflexivity].
    destruct (negb (existsb (String.eqb (node_id node)) sn)); cbn; [reflexivity|].
    destruct node; cbn; reflexivity.
  - destruct e0; reflexivity.
Qed.

Lemma steps_set_variables k : forall rt vs, steps k (set_variables rt vs) = steps k rt.
Proof.
  induction k as [|k IH]; intros rt vs; [reflexivity|]. simpl.
  rewrite continue_set_variables. destruct (continue rt) as [e rt']. simpl.
  rewrite IH. reflexivity.
Qed.

(** DialogueTreeRuntime.reset replays the dialogue: after [reset()], any
    number of [continue()] calls return exactly the events that a freshly
    constructed runtime on the same tree returns; the variables that
    [reset()] keeps never influence the events. *)
Theorem reset_replays_from_start :
  forall rt k, steps k (reset rt) = steps k (create (tree rt)).
Proof.
  intros rt k.
  replace (reset rt) with (set_variables (create (tree rt)) (variables rt))
    by (destruct rt; reflexivity).
  apply steps_set_variables.
Qed.

Lemma reset_replays_from_start_witness :
  steps 3 (reset (advance 5 (setVariable (create two_node_tree) "gold" (VNum "100")))) =
  [Some (ENodeStart "A"); Some (EPrepareForLines ["A"]); Some (ELine "A" [])].
Proof.
  rewrite reset_replays_from_start. vm_compute. reflexivity.
Defined.




(** DialogueTreeRuntime emits [node_start] for a node once between resets:
    after [setNode(n)] on a runtime that is not complete, where [n] is a
    non-empty name and a node key of the tree, the next [continue()] returns
    [node_start] and marks the node started if it was not started yet.  If
    it was, it goes straight to the node's content: [prepare_for_lines] for
    an NPC or player node, [dialogue_complete] for a node of unknown type. *)
Theorem setNode_node_start_once :
  forall rt n node,
    isComplete rt = false -> n <> "" -> map_get (nodes (tree rt)) n = Some node ->
    fst (continue (setNode rt n)) =
      (if set_has (startedNodes rt) (node_id node) then
         match node with
         | NpcNode id _ lid _ _ => Some (EPrepareForLines [str_or lid id])
         | PlayerNode _ choices =>
             Some (EPrepareForLines (List.map oi_lineId (mapi_from choice_option 0 choices)))
         | OtherNode _ => Some EDialogueComplete
         end
       else Some (ENodeStart (node_id node))) /\
    set_has (startedNodes (snd (continue (setNode rt n)))) (node_id node) = true.
Proof.
  intros rt n node Hc Hn Hm.
  destruct rt as [t cur c w pe pn sn vars oc]; simpl in Hc, Hm; subst c.
  destruct n as [|a n]; [contradiction|].
  unfold continue, setNode, populateEventsForCurrentNode, set_add, set_has. cbn. rewrite Hm.
  destruct (existsb (String.eqb (node_id node)) sn) eqn:E; cbn.
  - destruct node; cbn; split; try reflexivity; exact E.
  - split; [reflexivity|]. rewrite existsb_app. apply orb_true_iff. right.
    simpl. rewrite String.eqb_refl. reflexivity.
Qed.

Lemma setNode_node_start_once_witness :
  fst (continue (setNode (advance 4 (create two_node_tree)) "A")) =
    Some (EPrepareForLines ["A"]).
Proof.
  refine (eq_trans (proj1 (setNode_node_start_once (advance 4 (create two_node_tree)) "A"
            (NpcNode "A" "Welcome" None None (Some "B")) eq_refl ltac:(discriminate) eq_refl)) _).
  vm_compute. reflexivity.
Defined.





End RuntimeFacts2.

Module CommandFacts.
Import Commands MapFacts.

Lemma lower_char_idem c : lower_char (lower_char c) = lower_char c.
Proof. destruct c as [[] [] [] [] [] [] [] []]; reflexivity. Qed.

Lemma toLowerCase_idem s : toLowerCase (toLowerCase s) = toLowerCase s.
Proof. induction s as [|c s IH]; simpl; [reflexivity|]. rewrite lower_char_idem, IH. reflexivity. Qed.

(** CommandDispatcher.on registers case-insensitively: after [on(c, h)],
    dispatching a command text whose first token equals [c] up to case runs
    [h] on the remaining tokens and reports it handled. *)
Theorem on_dispatch_case_insensitive :
  forall d c h text cmd args,
    parseCommand text = Some (cmd, args) -> toLowerCase cmd = toLowerCase c ->
    dispatch (on d c h) text = (true, h args).
Proof.
  intros d c h text cmd args Hp Hl. unfold dispatch. rewrite Hp. simpl.
  rewrite Hl, map_set_get_same. reflexivity.
Qed.

Lemma on_dispatch_case_insensitive_witness :
  dispatch (on createDefaultDispatcher "Shake" (fun _ => [CtxDelay "0.5"; CtxContinue]))
    "  SHAKE 3" = (true, [CtxDelay "0.5"; CtxContinue]).
Proof.
  refine (on_dispatch_case_insensitive createDefaultDispatcher "Shake"
            (fun _ => [CtxDelay "0.5"; CtxContinue]) "  SHAKE 3" "SHAKE" ["3"] _ _);
    vm_compute; reflexivity.
Defined.

Lemma disp_build_nodup ops :
  NoDup (getRegisteredCommands (disp_build newDispatcher ops)) /\
  Forall (fun k => toLowerCase k = k) (getRegisteredCommands (disp_build newDispatcher ops)).
Proof.
  unfold disp_build. assert (H0 : NoDup (getRegisteredCommands newDispatcher) /\
    Forall (fun k => toLowerCase k = k) (getRegisteredCommands newDispatcher))
    by (split; constructor).
  revert H0. generalize newDispatcher.
  induction ops as [|op ops IH]; intros d [Hn Hf]; [split; assumption|].
  simpl. apply IH. unfold getRegisteredCommands in *. destruct op; simpl.
  - split; [apply map_set_nodup, Hn|]. rewrite map_keys_set.
    destruct (map_has (handlers d) (toLowerCase command)); [exact Hf|].
    apply Forall_app. split; [exact Hf|]. constructor; [apply toLowerCase_idem|constructor].
  - split; [apply map_delete_nodup, Hn|]. rewrite map_delete_keys by exact Hn.
    apply Forall_forall. intros x Hx. apply in_remove in Hx as [Hx _].
    rewrite Forall_forall in Hf. apply Hf, Hx.
  - split; assumption.
Qed.

(** CommandDispatcher.getRegisteredCommands, for a dispatcher built by
    [new CommandDispatcher()] and any sequence of [on], [off] and
    [setDefault] calls ([createDefaultDispatcher()] is one): the names are
    lowercase and distinct; [on(c, h)] appends the lowercased [c] only when it
    is not registered (re-registering replaces the handler in place); and
    [off(c)] removes the lowercased [c], keeping the order of the rest. *)
Theorem registered_commands_order :
  forall ops c h,
    let d := disp_build newDispatcher ops in
    NoDup (getRegisteredCommands d) /\
    Forall (fun k => toLowerCase k = k) (getRegisteredCommands d) /\
    getRegisteredCommands (on d c h) =
      (if map_has (handlers d) (toLowerCase c) then getRegisteredCommands d
       else app (getRegisteredCommands d) [toLowerCase c]) /\
    getRegisteredCommands (off d c) = remove string_dec (toLowerCase c) (getRegisteredCommands d) /\
    createDefaultDispatcher =
      disp_build newDispatcher [DOn "wait" wait_handler; DOn "stop" stop_handler;
                                DOn "set" set_handler].
Proof.
  intros ops c h d. destruct (disp_build_nodup ops) as [Hn Hf]. fold d in Hn, Hf.
  split; [exact Hn|]. split; [exact Hf|]. split; [apply map_keys_set|]. split.
  - apply map_delete_keys, Hn.
  - reflexivity.
Qed.

(** CommandDispatcher.off, for a dispatcher built by [new
    CommandDispatcher()] and any [on], [off] and [setDefault] calls: after
    [off(c)] a command whose first token equals [c] up to case goes to the
    default handler, which receives the command token as written followed by
    the arguments; with no default handler it is not handled and nothing
    runs.  [hasHandler(c)] is then true exactly when a default is set. *)
Theorem off_falls_back_to_default :
  forall ops c text cmd args,
    let d := disp_build newDispatcher ops in
    parseCommand text = Some (cmd, args) -> toLowerCase cmd = toLowerCase c ->
    dispatch (off d c) text =
      match defaultHandler d with Some h => (true, h (cmd :: args)) | None => (false, []) end /\
    hasHandler (off d c) c = match defaultHandler d with Some _ => true | None => false end.
Proof.
  intros ops c text cmd args d Hp Hl.
  destruct (disp_build_nodup ops) as [Hn _]. fold d in Hn. unfold getRegisteredCommands in Hn.
  split.
  - unfold dispatch. rewrite Hp. simpl. rewrite Hl, map_delete_get_same by exact Hn.
    reflexivity.
  - unfold hasHandler, map_has. simpl. rewrite map_delete_get_same by exact Hn. reflexivity.
Qed.

Lemma off_falls_back_to_default_witness :
  dispatch (off createDefaultDispatcher "STOP") "stop" = (false, []).
Proof.
  exact (proj1 (off_falls_back_to_default
    [DOn "wait" wait_handler; DOn "stop" stop_handler; DOn "set" set_handler]
    "STOP" "stop" "stop" [] eq_refl eq_refl)).
Defined.

(** CommandDispatcher.dispatch of a text that yields no token after
    trimming (blank text, or only a pair of empty quotes) is never handled:
    no handler runs, not even the default one, and it returns false. *)
Theorem dispatch_blank_unhandled :
  forall d text, tokenize (trim text) = [] -> dispatch d text = (false, []).
Proof.
  intros d text H. unfold dispatch, parseCommand.
  destruct (String.eqb (trim text) ""); [reflexivity|]. rewrite H. reflexivity.
Qed.

Lemma dispatch_blank_unhandled_witness :
  dispatch (setDefault createDefaultDispatcher (fun _ => [CtxStop]))
    (" " ++ String dq (String dq " ")) = (false, []).
Proof. apply dispatch_blank_unhandled. vm_compute. reflexivity. Defined.

Definition no_space (t : string) : Prop := ~ In " "%char (list_ascii_of_string t).

Lemma no_space_snoc t c : no_space t -> c <> " "%char -> no_space (t ++ String c EmptyString).
Proof.
  unfold no_space. induction t as [|a t IH]; simpl; intros H Hc.
  - intros [E|[]]. apply Hc. exact E.
  - intros [E|Hi]; [apply H; left; exact E|]. apply (IH (fun Hi' => H (or_intror Hi')) Hc Hi).
Qed.

Lemma tokenize_loop_nonempty s : forall toks cur iq qc,
  Forall (fun t => t <> "") toks -> Forall (fun t => t <> "") (tokenize_loop s toks cur iq qc).
Proof.
  induction s as [|c s IH]; intros toks cur iq qc H; simpl.
  - destruct (String.eqb cur "") eqn:E; [exact H|].
    apply Forall_app. split; [exact H|]. constructor; [apply String.eqb_neq, E|constructor].
  - destruct (is_quote c && negb iq); [apply IH, H|].
    destruct (opt_ascii_eqb qc c && iq); [apply IH, H|].
    destruct (Ascii.eqb c " " && negb iq); [|apply IH, H].
    destruct (String.eqb cur "") eqn:E; apply IH; [exact H|].
    apply Forall_app. split; [exact H|]. constructor; [apply String.eqb_neq, E|constructor].
Qed.

Lemma tokenize_loop_no_space s : forall toks cur,
  ~ In dq (list_ascii_of_string s) -> ~ In "'"%char (list_ascii_of_string s) ->
  Forall no_space toks -> no_space cur -> Forall no_space (tokenize_loop s toks cur false None).
Proof.
  induction s as [|c s IH]; intros toks cur Hd Hs H Hc; simpl.
  - destruct (String.eqb cur ""); [exact H|].
    apply Forall_app. split; [exact H|]. constructor; [exact Hc|constructor].
  - simpl in Hd, Hs.
    assert (Hq : is_quote c = false).
    { unfold is_quote. apply orb_false_iff. split; apply Ascii.eqb_neq; intros ->.
      - apply Hd. left. reflexivity.
      - apply Hs. left. reflexivity. }
    rewrite Hq. simpl.
    assert (Hd' : ~ In dq (list_ascii_of_string s)) by (intros Hi; apply Hd; right; exact Hi).
    assert (Hs' : ~ In "'"%char (list_ascii_of_string s)) by (intros Hi; apply Hs; right; exact Hi).
    destruct (Ascii.eqb c " ") eqn:Esp; simpl.
    + destruct (String.eqb cur ""); apply IH; try assumption.
      * apply Forall_app. split; [exact H|]. constructor; [exact Hc|constructor].
      * intros [].
    + apply IH; try assumption. apply no_space_snoc; [exact Hc|]. apply Ascii.eqb_neq, Esp.
Qed.

(** CommandDispatcher.tokenize never yields an empty token; and for a text
    without quote characters, no token contains a space (the text is split
    at every space). *)
Theorem tokenize_tokens :
  forall text,
    Forall (fun t => t <> "") (tokenize text) /\
    (~ In dq (list_ascii_of_string text) -> ~ In "'"%char (list_ascii_of_string text) ->
     Forall no_space (tokenize text)).
Proof.
  intros text. split.
  - apply tokenize_loop_nonempty. constructor.
  - intros Hd Hs. apply tokenize_loop_no_space; [exact Hd|exact Hs|constructor|intros []].
Qed.

End CommandFacts.

Module LineFacts2.
Import Lines.

Lemma no_char_drop (x : ascii) j : forall s,
  ~ In x (list_ascii_of_string s) -> ~ In x (list_ascii_of_string (str_drop j s)).
Proof.
  induction j as [|j IH]; intros s H; [exact H|].
  destruct s as [|c s]; [exact H|]. simpl. apply IH. intros Hi. apply H. right. exact Hi.
Qed.

Lemma prefix_brace_false r s :
  ~ In "{"%char (list_ascii_of_string s) -> String.prefix (String "{" r) s = false.
Proof.
  intros H. destruct s as [|c s]; [reflexivity|].
  change (String.prefix (String "{" r) (String c s))
    with (if ascii_dec "{" c then String.prefix r s else false).
  destruct (ascii_dec "{" c) as [E|_]; [|reflexivity].
  exfalso. apply H. left. symmetry. exact E.
Qed.

Lemma apply_from_no_brace subs : forall text idx,
  ~ In "{"%char (list_ascii_of_string text) -> apply_from text idx subs = text.
Proof.
  induction subs as [|sub subs IH]; intros text idx H; [reflexivity|]. simpl.
  replace (js_replace text (placeholder idx) sub) with text.
  - apply IH, H.
  - symmetry. apply LineClaims.index_of_none_replace.
    intros j _. apply prefix_brace_false, no_char_drop, H.
Qed.

(** MapLineProvider.getLine returns a line whose text contains no [{]
    verbatim, whatever substitutions are passed (excess or missing
    substitutions are ignored), with the entry's metadata. *)
Theorem getLine_no_placeholder_verbatim :
  forall lines lineId e subs,
    map_get lines lineId = Some e -> ~ In "{"%char (list_ascii_of_string (le_text e)) ->
    getLine lines lineId subs = Some (mkLocalized (le_text e) lineId subs (le_metadata e)).
Proof.
  intros lines lineId e subs Hm Hn. unfold getLine. rewrite Hm.
  unfold applySubstitutions. rewrite apply_from_no_brace by exact Hn. reflexivity.
Qed.

Lemma getLine_no_placeholder_verbatim_witness :
  getLine [("L1", mkEntry "L1" "Hello there." None)] "L1" ["unused"] =
    Some (mkLocalized "Hello there." "L1" ["unused"] None).
Proof.
  apply (getLine_no_placeholder_verbatim _ _ (mkEntry "L1" "Hello there." None)).
  - reflexivity.
  - vm_compute. intros H. repeat (destruct H as [H|H]; [discriminate|]). exact H.
Defined.

End LineFacts2.

Module RunnerFacts2.
Import Commands Lines Runner MapFacts.

Lemma rt_continue_variables rt :
  TreeRuntime.variables (snd (TreeRuntime.continue rt)) = TreeRuntime.variables rt.
Proof.
  pose proof (RuntimeFacts2.continue_set_variables rt (TreeRuntime.variables rt)) as H.
  replace (TreeRuntime.set_variables rt (TreeRuntime.variables rt)) with rt in H
    by (destruct rt; reflexivity).
  rewrite H. reflexivity.
Qed.

Lemma rt_continue_not_complete rt ev rt' :
  TreeRuntime.continue rt = (Some ev, rt') -> TreeRuntime.isComplete rt = false ->
  ev <> EDialogueComplete -> TreeRuntime.isComplete rt' = false.
Proof.
  intros H Hc Hne.
  destruct rt as [t cur c w pe pn sn vars oc]; simpl in Hc; subst c.
  unfold TreeRuntime.continue, TreeRuntime.populateEventsForCurrentNode in H; cbn in H.
  destruct w; [discriminate|].
  destruct pe as [|e0 pe]; cbn in H.
  - destruct (truthy_str cur) as [cur'|]; cbn in H;
      [|injection H as <- <-; exfalso; apply Hne; reflexivity].
    destruct (map_get (TreeRuntime.nodes t) cur') as [node|]; cbn in H;
      [|injection H as <- <-; exfalso; apply Hne; reflexivity].
    destruct (negb (existsb (String.eqb (TreeRuntime.node_id node)) sn)); cbn in H;
      [injection H as <- <-; reflexivity|].
    destruct node; cbn in H; injection H as <- <-; try reflexivity.
    exfalso; apply Hne; reflexivity.
  - destruct e0; injection H as <- <-; try reflexivity. exfalso; apply Hne; reflexivity.
Qed.

Lemma rt_select_variables rt i :
  TreeRuntime.variables (outcome_state (TreeRuntime.setSelectedOption rt i)) =
  TreeRuntime.variables rt.
Proof.
  unfold TreeRuntime.setSelectedOption.
  destruct (TreeRuntime.optionCache rt) as [cache|]; [|reflexivity].
  destruct (negb (TreeRuntime.waitingForOption rt)); [reflexivity|].
  destruct (nth_z (TreeRuntime.oc_choices cache) i); reflexivity.
Qed.

Lemma loop_S lp d f r :
  loop lp d (S f) r =
  if stopped r || TreeRuntime.isDialogueComplete (runtime r) then r else
  match TreeRuntime.continue (runtime r) with
  | (event, rt') =>
      match event with
      | None => set_runtime r rt'
      | Some e =>
          match handleRuntimeEvent lp d (set_lastEvent (set_runtime r rt') (Some e)) e with
          | (b, r2) => if b then r2 else loop lp d f r2
          end
      end
  end.
Proof. reflexivity. Qed.

(** *** The runtime agrees with the storage once a dialogue has started *)

Definition agrees (r : Runner) : Prop :=
  forall k v, map_get (variableStorage r) k = Some v ->
              TreeRuntime.getVariable (runtime r) k = Some v.

Definition inv (r : Runner) : Prop := NoDup (map_keys (variableStorage r)) /\ agrees r.

Lemma inv_frame r r' :
  variableStorage r' = variableStorage r ->
  TreeRuntime.variables (runtime r') = TreeRuntime.variables (runtime r) -> inv r -> inv r'.
Proof.
  intros Hs Hv [Hn Ha]. split; [rewrite Hs; exact Hn|].
  intros k v Hk. rewrite Hs in Hk. unfold TreeRuntime.getVariable. rewrite Hv. apply Ha, Hk.
Qed.

Lemma inv_setVariable r n v : inv r -> inv (setVariable r n v).
Proof.
  intros [Hn Ha]. split; simpl; [apply map_set_nodup, Hn|].
  intros k v0 Hk. simpl in Hk. unfold TreeRuntime.getVariable, TreeRuntime.setVariable. simpl.
  destruct (string_dec k n) as [->|Hne].
  - rewrite map_set_get_same in Hk |- *. exact Hk.
  - rewrite map_set_get_other in Hk |- * by exact Hne. apply Ha, Hk.
Qed.

Lemma inv_run_ctx r cs : inv r -> inv (run_ctx r cs).
Proof.
  unfold run_ctx. revert r. induction cs as [|c cs IH]; intros r H; simpl; [exact H|].
  apply IH. destruct c; simpl.
  - apply inv_setVariable, H.
  - apply (inv_frame r); [reflexivity|reflexivity|exact H].
  - exact H.
  - exact H.
Qed.

Lemma inv_handle lp d r e : inv r -> inv (snd (handleRuntimeEvent lp d r e)).
Proof.
  intros H. destruct e; simpl; try (apply (inv_frame r); [reflexivity|reflexivity|exact H]).
  unfold handleCommand. destruct (dispatch d text) as [hd cs]. simpl.
  apply (inv_frame (run_ctx r cs)); [reflexivity|reflexivity|apply inv_run_ctx, H].
Qed.

Lemma inv_loop lp d f : forall r, inv r -> inv (loop lp d f r).
Proof.
  induction f as [|f IH]; intros r H; [exact H|]. rewrite loop_S.
  destruct (stopped r || TreeRuntime.isDialogueComplete (runtime r)); [exact H|].
  destruct (TreeRuntime.continue (runtime r)) as [ev rt'] eqn:E.
  assert (Hv : TreeRuntime.variables rt' = TreeRuntime.variables (runtime r)).
  { rewrite <- (rt_continue_variables (runtime r)), E. reflexivity. }
  assert (H1 : inv (set_runtime r rt')) by (apply (inv_frame r); [reflexivity|exact Hv|exact H]).
  destruct ev as [e|]; [|exact H1].
  assert (H2 : inv (set_lastEvent (set_runtime r rt') (Some e)))
    by (apply (inv_frame (set_runtime r rt')); [reflexivity|reflexivity|exact H1]).
  pose proof (inv_handle lp d _ e H2) as H3.
  destruct (handleRuntimeEvent lp d (set_lastEvent (set_runtime r rt') (Some e)) e) as [b r2].
  simpl in H3. destruct b; [exact H3|apply IH, H3].
Qed.

Lemma inv_runUntilPause lp d f r : inv r -> inv (runUntilPause lp d f r).
Proof.
  intros H. unfold runUntilPause. pose proof (inv_loop lp d f r H) as H1.
  destruct (TreeRuntime.isDialogueComplete (runtime (loop lp d f r))); [|exact H1].
  apply (inv_frame (loop lp d f r)); [reflexivity|reflexivity|exact H1].
Qed.

Lemma fold_setVariable_notin l : forall rt k,
  ~ In k (List.map fst l) ->
  TreeRuntime.getVariable (fold_left (fun rt '(k, v) => TreeRuntime.setVariable rt k v) l rt) k =
  TreeRuntime.getVariable rt k.
Proof.
  induction l as [|[k0 v0] l IH]; intros rt k H; simpl; [reflexivity|].
  simpl in H. rewrite IH by (intros Hi; apply H; right; exact Hi).
  unfold TreeRuntime.getVariable, TreeRuntime.setVariable. simpl.
  apply map_set_get_other. intros ->. apply H. left. reflexivity.
Qed.

Lemma fold_setVariable_in l : forall rt k v,
  NoDup (List.map fst l) -> map_get l k = Some v ->
  TreeRuntime.getVariable (fold_left (fun rt '(k, v) => TreeRuntime.setVariable rt k v) l rt) k =
  Some v.
Proof.
  induction l as [|[k0 v0] l IH]; intros rt k v Hn Hk; [discriminate|].
  simpl in Hk |- *. inversion Hn as [|a b Hni Hd]; subst.
  destruct (String.eqb k k0) eqn:E.
  - apply String.eqb_eq in E. subst k0. injection Hk as ->.
    rewrite fold_setVariable_notin by exact Hni.
    unfold TreeRuntime.getVariable, TreeRuntime.setVariable. simpl. apply map_set_get_same.
  - apply IH; assumption.
Qed.

Lemma inv_start lp d f r n : NoDup (map_keys (variableStorage r)) -> inv (start lp d f r n).
Proof.
  intros Hn. unfold start. cbv zeta. apply inv_runUntilPause.
  rewrite RunnerClaims.sync_runtime. split; [exact Hn|].
  intros k v Hk. simpl in Hk. unfold TreeRuntime.getVariable. simpl.
  apply (fold_setVariable_in (variableStorage r)); assumption.
Qed.

Lemma inv_exec lp d f r op : inv r -> inv (exec lp d f r op).
Proof.
  intros H. destruct op as [n| |i| |]; simpl.
  - apply inv_start, (proj1 H).
  - unfold continue. destruct (isWaitingForOption (state r)); [exact H|].
    destruct (isComplete (state r)); [exact H|]. apply inv_runUntilPause, H.
  - unfold selectOption. destruct (negb (isWaitingForOption (state r))); [exact H|].
    pose proof (rt_select_variables (runtime r) i) as Hv.
    destruct (TreeRuntime.setSelectedOption (runtime r) i) as [a rt'|msg rt']; simpl in Hv |- *.
    + apply inv_runUntilPause.
      apply (inv_frame r); [reflexivity|exact Hv|exact H].
    + apply (inv_frame r); [reflexivity|exact Hv|exact H].
  - apply (inv_frame r); [reflexivity|reflexivity|exact H].
  - apply (inv_frame r); [reflexivity|reflexivity|exact H].
Qed.

(** DialogueRunner keeps the runtime's working set in step with the variable
    storage once a dialogue has started: after [start(n)] (given a storage
    without a repeated name, as a [Map] is) and any later [continue],
    [selectOption], [stop], [reset] and [start] calls, including the
    [setVariable] calls of command handlers, every name the storage holds
    has the same value in the runtime. *)
Theorem storage_runtime_agree_after_start :
  forall lp d fuel r n ops,
    NoDup (map_keys (variableStorage r)) ->
    let r' := exec_all lp d fuel (start lp d fuel r n) ops in
    NoDup (map_keys (variableStorage r')) /\
    forall k v, map_get (variableStorage r') k = Some v ->
                TreeRuntime.getVariable (runtime r') k = Some v.
Proof.
  intros lp d fuel r n ops Hn r'. subst r'.
  assert (H : inv (start lp d fuel r n)) by (apply inv_start, Hn).
  unfold exec_all. revert H. generalize (start lp d fuel r n).
  induction ops as [|op ops IH]; intros r0 H; simpl; [exact H|].
  apply IH, inv_exec, H.
Qed.

Lemma storage_runtime_agree_after_start_witness :
  TreeRuntime.getVariable
    (runtime (exec_all (getLine []) createDefaultDispatcher 16
                (start (getLine []) createDefaultDispatcher 16
                   (create (TreeRuntime.create TreeRuntime.two_node_tree) [("gold", VNum "100")]) "A")
                [OContinue; OReset])) "gold" = Some (VNum "100").
Proof.
  apply (proj2 (storage_runtime_agree_after_start (getLine []) createDefaultDispatcher 16
           (create (TreeRuntime.create TreeRuntime.two_node_tree) [("gold", VNum "100")]) "A"
           [OContinue; OReset] ltac:(vm_compute; repeat constructor; intros []))).
  vm_compute. reflexivity.
Defined.

(** *** The runner pauses after each line and option set *)

Definition is_pause_event (e : RunnerEvent) : bool :=
  match e with RLine _ _ _ _ | ROptions _ => true | _ => false end.

Definition pause_free (l : list RunnerEvent) : Prop := Forall (fun e => is_pause_event e = false) l.

Lemma emitted_run_ctx r cs : emitted (run_ctx r cs) = emitted r.
Proof.
  unfold run_ctx. revert r. induction cs as [|c cs IH]; intros r; simpl; [reflexivity|].
  rewrite IH. destruct c; reflexivity.
Qed.

Definition pause_shape (delta : list RunnerEvent) (final : Runner) : Prop :=
  pause_free delta \/
  (exists pre e, delta = app pre [e] /\ pause_free pre /\ is_pause_event e = true /\
                 TreeRuntime.isDialogueComplete (runtime final) = false).

Lemma pause_shape_cons x delta final :
  is_pause_event x = false -> pause_shape delta final -> pause_shape (x :: delta) final.
Proof.
  intros Hx [H|(pre & e & -> & Hp & He & Hc)].
  - left. constructor; assumption.
  - right. exists (x :: pre), e. split; [reflexivity|]. split; [constructor; assumption|].
    split; assumption.
Qed.

Lemma loop_pauses lp d f : forall r,
  exists delta, emitted (loop lp d f r) = app (emitted r) delta /\
                pause_shape delta (loop lp d f r).
Proof.
  induction f as [|f IH]; intros r.
  { exists []. rewrite app_nil_r. split; [reflexivity|left; constructor]. }
  rewrite loop_S.
  destruct (stopped r || TreeRuntime.isDialogueComplete (runtime r)) eqn:Ec.
  { exists []. rewrite app_nil_r. split; [reflexivity|left; constructor]. }
  apply orb_false_iff in Ec as [_ Ec].
  destruct (TreeRuntime.continue (runtime r)) as [ev rt'] eqn:E.
  destruct ev as [e|].
  2:{ exists []. rewrite app_nil_r. split; [reflexivity|left; constructor]. }
  set (r1 := set_lastEvent (set_runtime r rt') (Some e)).
  assert (He1 : emitted r1 = emitted r) by reflexivity.
  assert (Hstep : forall r2 x, emitted r2 = app (emitted r) [x] -> is_pause_event x = false ->
            exists delta, emitted (loop lp d f r2) = app (emitted r) delta /\
                          pause_shape delta (loop lp d f r2)).
  { intros r2 x H2 Hx. destruct (IH r2) as (delta & Hd & Hs).
    exists (x :: delta). split; [rewrite Hd, H2, <- app_assoc; reflexivity|].
    apply pause_shape_cons; assumption. }
  assert (Hnc : e <> EDialogueComplete -> TreeRuntime.isDialogueComplete rt' = false).
  { intros Hne. exact (rt_continue_not_complete _ _ _ E Ec Hne). }
  destruct e as [lineId subs|options|text|nn|nn| |ids]; cbn [handleRuntimeEvent].
  - exists [RLine lineId (line_text (lp lineId subs) lineId) subs
             (match lp lineId subs with Some l => ll_metadata l | None => None end)].
    split; [reflexivity|]. right. eexists [], _. split; [reflexivity|].
    split; [constructor|]. split; [reflexivity|]. apply Hnc. discriminate.
  - eexists [ROptions _]. split; [reflexivity|]. right. eexists [], _.
    split; [reflexivity|]. split; [constructor|]. split; [reflexivity|]. apply Hnc. discriminate.
  - unfold handleCommand. destruct (dispatch d text) as [hd cs].
    apply (Hstep _ (RCommand text hd)); [|reflexivity].
    simpl. rewrite emitted_run_ctx. reflexivity.
  - apply (Hstep _ (RNodeStart nn)); reflexivity.
  - apply (Hstep _ (RNodeComplete nn)); reflexivity.
  - exists []. rewrite app_nil_r. split; [reflexivity|left; constructor].
  - destruct (IH r1) as (delta & Hd & Hs). exists delta. rewrite Hd, He1. split; [reflexivity|exact Hs].
Qed.

Lemma runUntilPause_pauses lp d f r :
  exists delta, emitted (runUntilPause lp d f r) = app (emitted r) delta /\
    (pause_free delta \/
     exists pre e, delta = app pre [e] /\ pause_free pre /\ is_pause_event e = true).
Proof.
  unfold runUntilPause. destruct (loop_pauses lp d f r) as (delta & Hd & [Hf|(pre & e & -> & Hp & He & Hc)]).
  - destruct (TreeRuntime.isDialogueComplete (runtime (loop lp d f r))).
    + exists (app delta [RDialogueComplete]). split.
      * simpl. rewrite Hd, app_assoc. reflexivity.
      * left. apply Forall_app. split; [exact Hf|constructor; [reflexivity|constructor]].
    + exists delta. split; [exact Hd|left; exact Hf].
  - rewrite Hc. exists (app pre [e]). split; [exact Hd|right; exists pre, e; auto].
Qed.

(** DialogueRunner pauses after every line and every option set: each
    public call ([start], [continue], [selectOption], [stop], [reset]; a
    call that throws included) emits at most one [line] or [options] event,
    and when it emits one, that event is the last one the call emits. *)
Theorem runner_pauses_after_line_or_options :
  forall lp d fuel r op,
    exists delta, emitted (exec lp d fuel r op) = app (emitted r) delta /\
      (pause_free delta \/
       exists pre e, delta = app pre [e] /\ pause_free pre /\ is_pause_event e = true).
Proof.
  intros lp d fuel r op.
  assert (Hnil : exists delta, emitted r = app (emitted r) delta /\
      (pause_free delta \/
       exists pre e, delta = app pre [e] /\ pause_free pre /\ is_pause_event e = true))
    by (exists []; rewrite app_nil_r; split; [reflexivity|left; constructor]).
  destruct op as [n| |i| |]; simpl.
  - unfold start. cbv zeta.
    destruct (runUntilPause_pauses lp d fuel
      (set_runtime (syncVariablesToRuntime (set_state (set_stopped r false)
                      (mkState (Some n) true false false None)))
         (TreeRuntime.setNode (runtime (syncVariablesToRuntime (set_state (set_stopped r false)
                      (mkState (Some n) true false false None)))) n))) as (delta & Hd & Hs).
    exists delta. split; [|exact Hs]. rewrite Hd. rewrite RunnerClaims.sync_runtime. reflexivity.
  - unfold continue. destruct (isWaitingForOption (state r)); [exact Hnil|].
    destruct (isComplete (state r)); [exact Hnil|]. apply runUntilPause_pauses.
  - unfold selectOption. destruct (negb (isWaitingForOption (state r))); [exact Hnil|].
    destruct (TreeRuntime.setSelectedOption (runtime r) i) as [a rt'|msg rt']; simpl.
    + exact (runUntilPause_pauses lp d fuel (set_isWaitingForOption (set_runtime r rt') false)).
    + exists []. rewrite app_nil_r. split; [reflexivity|left; constructor].
  - exact Hnil.
  - exact Hnil.
Qed.

(** *** Built-in commands seen from the runner *)

(** A [wait] command (any case) dispatched by the runner with the default
    dispatcher waits [parseFloat(args[0] || '1')] seconds when that is a
    number and then continues; the runner's state, variables and runtime are
    left unchanged, it emits [command] with [handled] true and does not
    pause. *)
Theorem wait_command_keeps_runner :
  forall lp r text cmd args,
    parseCommand text = Some (cmd, args) -> toLowerCase cmd = "wait" ->
    snd (dispatch createDefaultDispatcher text) =
      match parseFloat (str_or (hd_error args) "1") with
      | Some secs => [CtxDelay secs; CtxContinue]
      | None => [CtxContinue]
      end /\
    handleRuntimeEvent lp createDefaultDispatcher r (ECommand text) =
      (false, emit r (RCommand text true)).
Proof.
  intros lp r text cmd args Hp Hl.
  assert (Hd : dispatch createDefaultDispatcher text = (true, wait_handler args)).
  { unfold dispatch. rewrite Hp. cbv iota beta. rewrite Hl. reflexivity. }
  split.
  - rewrite Hd. destruct args; reflexivity.
  - unfold handleRuntimeEvent, handleCommand. rewrite Hd. cbv iota beta.
    replace (run_ctx r (wait_handler args)) with r; [reflexivity|].
    unfold wait_handler. destruct (parseFloat _); reflexivity.
Qed.

Lemma wait_command_keeps_runner_witness :
  snd (dispatch createDefaultDispatcher "Wait 1.5s") = [CtxDelay "1.5"; CtxContinue].
Proof.
  exact (proj1 (wait_command_keeps_runner (getLine []) (create (TreeRuntime.create TreeRuntime.two_node_tree) [])
     "Wait 1.5s" "Wait" ["1.5s"] eq_refl eq_refl)).
Defined.

(** A [stop] command (any case) dispatched by the runner with the default
    dispatcher stops the runner ([stopped], complete, not running), emits
    [command] with [handled] true, and the step loop then takes no further
    runtime step. *)
Theorem stop_command_halts_runner :
  forall lp r text cmd args,
    parseCommand text = Some (cmd, args) -> toLowerCase cmd = "stop" ->
    handleRuntimeEvent lp createDefaultDispatcher r (ECommand text) =
      (false, emit (stop r) (RCommand text true)) /\
    stopped (stop r) = true /\ isComplete (state (stop r)) = true /\
    isRunning (state (stop r)) = false /\
    forall f, loop lp createDefaultDispatcher f (emit (stop r) (RCommand text true)) =
              emit (stop r) (RCommand text true).
Proof.
  intros lp r text cmd args Hp Hl.
  assert (Hd : dispatch createDefaultDispatcher text = (true, stop_handler args)).
  { unfold dispatch. rewrite Hp. cbv iota beta. rewrite Hl. reflexivity. }
  split; [unfold handleRuntimeEvent, handleCommand; rewrite Hd; reflexivity|].
  split; [reflexivity|]. split; [reflexivity|]. split; [reflexivity|].
  intros [|f]; reflexivity.
Qed.

Lemma stop_command_halts_runner_witness :
  stopped (snd (handleRuntimeEvent (getLine []) createDefaultDispatcher
     (create (TreeRuntime.create TreeRuntime.two_node_tree) []) (ECommand "STOP"))) = true.
Proof.
  rewrite (proj1 (stop_command_halts_runner (getLine [])
     (create (TreeRuntime.create TreeRuntime.two_node_tree) []) "STOP" "STOP" [] eq_refl eq_refl)).
  reflexivity.
Defined.

(** *** Runner calls and their errors *)

(** DialogueRunner.continue after stop() always throws and changes nothing:
    with "Cannot continue while waiting for option selection" when options
    were pending, and "Dialogue is already complete" otherwise. *)
Theorem continue_after_stop_throws :
  forall lp d fuel r,
    continue lp d fuel (stop r) =
      Throw (if isWaitingForOption (state r)
             then "Cannot continue while waiting for option selection"
             else "Dialogue is already complete") (stop r).
Proof.
  intros lp d fuel r. unfold continue. simpl.
  destruct (isWaitingForOption (state r)); reflexivity.
Qed.

(** DialogueRunner.reset leaves the variable storage and the runtime's
    variables alone, so [getVariable(name)] returns the same value before
    and after for every name; it restores the initial state, clears
    [stopped], emits nothing and calls the runtime's [reset()]. *)
Theorem runner_reset_keeps_variables :
  forall r name,
    getVariable (reset r) name = getVariable r name /\
    variableStorage (reset r) = variableStorage r /\
    state (reset r) = initialState /\ stopped (reset r) = false /\
    emitted (reset r) = emitted r /\ runtime (reset r) = TreeRuntime.reset (runtime r).
Proof. intros r name. repeat split; reflexivity. Qed.

(** DialogueRunner.selectOption with an id that is not an index of the
    pending choices throws "Invalid option id <id>" and leaves the runner
    as it was: still waiting for an option, with the same runtime, so the
    player can choose again. *)
Theorem selectOption_invalid_keeps_waiting :
  forall lp d fuel r c i,
    isWaitingForOption (state r) = true ->
    TreeRuntime.optionCache (runtime r) = Some c ->
    TreeRuntime.waitingForOption (runtime r) = true ->
    nth_z (TreeRuntime.oc_choices c) i = None ->
    selectOption lp d fuel r i = Throw ("Invalid option id " ++ Z_to_string i) r.
Proof.
  intros lp d fuel r c i Hw Hc Hrw Hn.
  unfold selectOption, TreeRuntime.setSelectedOption. rewrite Hw, Hc, Hrw, Hn. cbn.
  destruct r; reflexivity.
Qed.

Lemma selectOption_invalid_keeps_waiting_witness :
  selectOption (getLine []) createDefaultDispatcher 16
    (exec_all (getLine []) createDefaultDispatcher 16
       (create (TreeRuntime.create TreeRuntime.shop_tree) []) [OStart "P"]) 5 =
  Throw ("Invalid option id " ++ Z_to_string 5)
    (exec_all (getLine []) createDefaultDispatcher 16
       (create (TreeRuntime.create TreeRuntime.shop_tree) []) [OStart "P"]).
Proof.
  apply (selectOption_invalid_keeps_waiting _ _ _ _
    (TreeRuntime.mkCache [TreeRuntime.mkChoice "buy" "Buy" (Some "X") None None;
                          TreeRuntime.mkChoice "chat" "Chat" (Some "Y") None None] "P"));
    vm_compute; reflexivity.
Defined.

End RunnerFacts2.
